(** * ImageDeepCABAC: a shallow embedding of src/lib/ImageDeepCABAC.ts

    The development follows the class method by method.  JavaScript numbers
    are modelled by exact rationals ([Q]): every arithmetic operation of the
    source is written with the corresponding operation of [Q], and results
    that are numbers are compared with [Qeq] ([==]).  Rounding is not part
    of this model; [Module IEEE] looks at it for the one function whose
    stated property depends on it.  The tensor operations of the tf library
    that the class calls ([pad], [reshape], [split], [stack], the
    elementwise kernels, [array]) are modelled in [Module tf] on a flat
    row-major buffer together with a shape, which is how the library stores
    a tensor.  Methods of the class are computations in a small monad that
    threads the object ([this]) and can throw; the [while] loop of the
    coder, which need not terminate, runs on fuel. *)

From Stdlib Require Import QArith Qround Lqa ZArith Lia SpecFloat.
From stdpp Require Import gmap strings list fin_maps pretty.

Open Scope Q_scope.

(** ** Numbers *)

Module JS.

(** [x < y] and [x >= y] on numbers. *)
Definition lt (x y : Q) : bool := negb (Qle_bool y x).
Definition ge (x y : Q) : bool := Qle_bool y x.

(** [Math.trunc]: the integer part, rounding toward zero. *)
Definition trunc (x : Q) : Z :=
  if Qle_bool 0 x then Qfloor x else Qceiling x.

(** [x % y]: the remainder has the sign of the dividend. *)
Definition rem (x y : Q) : Q := x - y * inject_Z (trunc (x / y)).

(** [v || d] on an optional number: [undefined] and [0] are falsy. *)
Definition or_else (v : option Q) (d : Q) : Q :=
  match v with
  | Some x => if Qeq_bool x 0 then d else x
  | None => d
  end.

(** [v || d] on an optional integer option of the constructor. *)
Definition or_elseZ (v : option Z) (d : Z) : Z :=
  match v with
  | Some x => if (x =? 0)%Z then d else x
  | None => d
  end.

(** [Math.ceil(a / b)] for integer operands. *)
Definition ceil_div (a b : Z) : Z := (- ((- a) / b))%Z.

End JS.

(** ** Outcomes of a call *)

Inductive Outcome (A : Type) : Type :=
| Returned (a : A)
| Thrown (msg : string)
| Unfinished.

Arguments Returned {A} a.
Arguments Thrown {A} msg.
Arguments Unfinished {A}.

Definition obind {A B : Type} (o : Outcome A) (k : A -> Outcome B) : Outcome B :=
  match o with
  | Returned a => k a
  | Thrown e => Thrown e
  | Unfinished => Unfinished
  end.

(** ** Tensors *)

Module tf.

Record Tensor : Type := mkTensor { shape : list nat; values : list Q }.

Definition size_of (sh : list nat) : nat := foldr Nat.mul 1%nat sh.

(** Consecutive runs of [len] values: run [k] starts at offset [k * len]. *)
Definition run (len : nat) (buf : list Q) (k : nat) : list Q :=
  take len (drop (k * len) buf).

Definition runs (count len : nat) (buf : list Q) : list (list Q) :=
  map (run len buf) (seq 0 count).

(** [tf.browser.fromPixels(imageData)] with the default of three channels:
    value [i * 3 + channel] of the result is byte [i * 4 + channel] of the
    RGBA buffer. *)
Definition fromPixels (width height : nat) (rgba : list Z) : Tensor :=
  {| shape := [height; width; 3%nat];
     values :=
       flat_map
         (fun i => map (fun channel => inject_Z (nth (i * 4 + channel) rgba 0%Z))
                       (seq 0 3))
         (seq 0 (width * height)) |}.

(** [tf.pad(t, [[0, padH], [0, padW], [0, 0]])] on a rank-3 tensor: every
    row is extended by [padW] zero pixels and [padH] zero rows follow. *)
Definition pad (t : Tensor) (padH padW : nat) : Outcome Tensor :=
  match shape t with
  | [h; w; c] =>
      Returned
        {| shape := [(h + padH)%nat; (w + padW)%nat; c];
           values :=
             flat_map (fun row => row ++ replicate (padW * c) 0)
                      (runs h (w * c) (values t))
             ++ replicate (padH * ((w + padW) * c)) 0 |}
  | _ => Thrown "pad: rank"
  end.

(** [tf.reshape(t, [-1, d1, d2, d3])]: the buffer is kept, the leading
    extent is inferred from the size. *)
Definition reshape (t : Tensor) (d1 d2 d3 : nat) : Outcome Tensor :=
  let inner := (d1 * d2 * d3)%nat in
  let total := length (values t) in
  if decide (inner = 0%nat) then
    if decide (total = 0%nat)
    then Thrown "reshape: cannot infer the missing size"
    else Thrown "reshape: size mismatch"
  else if decide (total `mod` inner = 0)%nat then
    Returned {| shape := [(total / inner)%nat; d1; d2; d3]; values := values t |}
  else Thrown "reshape: size mismatch".

(** Elementwise kernels with a scalar second operand. *)
Definition div (t : Tensor) (k : Q) : Tensor :=
  {| shape := shape t; values := map (fun x => x / k) (values t) |}.

Definition mul (t : Tensor) (k : Q) : Tensor :=
  {| shape := shape t; values := map (fun x => x * k) (values t) |}.

Definition floor (t : Tensor) : Tensor :=
  {| shape := shape t; values := map (fun x => inject_Z (Qfloor x)) (values t) |}.

(** [tf.add] of two tensors of the same shape. *)
Definition add (a b : Tensor) : Tensor :=
  {| shape := shape a; values := zip_with Qplus (values a) (values b) |}.

(** [tf.split(t, n, -1)]: [n] equal parts along the last axis. *)
Definition split (t : Tensor) (n : nat) : Outcome (list Tensor) :=
  let c := List.last (shape t) 0%nat in
  let k := (c / n)%nat in
  if decide (n <> 0 /\ c `mod` n = 0)%nat then
    Returned
      (map (fun i =>
              {| shape := removelast (shape t) ++ [k];
                 values :=
                   flat_map (fun px => take k (drop (i * k) px))
                            (runs (length (values t) / c) c (values t)) |})
           (seq 0 n))
  else Thrown "split: the axis is not evenly divisible".

(** [tf.stack(ts, -1)]: a new last axis indexes the stacked tensors. *)
Definition stack (ts : list Tensor) : Tensor :=
  let first := hd (mkTensor [] []) ts in
  {| shape := shape first ++ [length ts];
     values :=
       flat_map (fun j => map (fun t => nth j (values t) 0) ts)
                (seq 0 (length (values first))) |}.

(** [await t.array()] followed by [block.flat(3)] on each entry of the
    leading axis (rank 4 or 5): one flat list of samples per block. *)
Definition blocks (t : Tensor) : list (list Q) :=
  match shape t with
  | n :: rest => runs n (size_of rest) (values t)
  | [] => []
  end.

End tf.

(** ** The data of the class *)

Inductive ColorSpace : Type := RGB | YCbCr.

Module ImageData.
Record t : Type := make { width : nat; height : nat; data : list Z }.
End ImageData.

Record ContextEntry : Type := { frequency : Q }.

Record Options : Type :=
  { blockSize : Z; quantizationLevel : Z; colorSpace : ColorSpace }.

(** [Partial<options>]: every field may be missing. *)
Module PartialOptions.
Record t : Type :=
  make { blockSize : option Z;
         quantizationLevel : option Z;
         colorSpace : option ColorSpace }.
End PartialOptions.

Record ImageDeepCABAC : Type :=
  { contexts : gmap string ContextEntry; options : Options }.

Module Metadata.
Record t : Type :=
  make { width : nat; height : nat; colorSpace : ColorSpace;
         blockSize : Z; quantizationLevel : Z }.
End Metadata.

Record Compressed : Type :=
  { compressed : list (list Z); metadata : Metadata.t }.

Record Interval : Type := { low : Q; high : Q }.

(** The local variables of [compressBlock]. *)
Record Coder : Type := { emitted : list Z; lo : Q; hi : Q }.

(** ** Methods: computations on [this]

    A call starts from the object and ends with an outcome and the object
    as the call left it, also when the call throws. *)

Definition Method (A : Type) : Type :=
  ImageDeepCABAC -> Outcome A * ImageDeepCABAC.

Definition ret {A : Type} (a : A) : Method A := fun self => (Returned a, self).

Definition bind {A B : Type} (m : Method A) (k : A -> Method B) : Method B :=
  fun self =>
    match m self with
    | (Returned a, self') => k a self'
    | (Thrown e, self') => (Thrown e, self')
    | (Unfinished, self') => (Unfinished, self')
    end.

Definition this : Method ImageDeepCABAC := fun self => (Returned self, self).

Definition lift {A : Type} (o : Outcome A) : Method A := fun self => (o, self).

Notation "x <- m ;; k" := (bind m (fun x => k))
  (at level 100, m at next level, right associativity).

(** [for (const x of xs) out.push(f x)]. *)
Fixpoint forEach {A B : Type} (f : A -> Method B) (xs : list A) : Method (list B) :=
  match xs with
  | [] => ret []
  | x :: rest => y <- f x ;; ys <- forEach f rest ;; ret (y :: ys)
  end.

(** [for (let i = ...; ...; i++) st = body i st] over the listed indices. *)
Fixpoint forIndices {S : Type} (body : nat -> S -> Method S) (idx : list nat)
  (st : S) : Method S :=
  match idx with
  | [] => ret st
  | i :: rest => st' <- body i st ;; forIndices body rest st'
  end.

(** ** The class *)

Definition constructor (opts : PartialOptions.t) : ImageDeepCABAC :=
  {| contexts := ∅;
     options :=
       {| blockSize := JS.or_elseZ (PartialOptions.blockSize opts) 8;
          quantizationLevel := JS.or_elseZ (PartialOptions.quantizationLevel opts) 8;
          colorSpace := default YCbCr (PartialOptions.colorSpace opts) |} |}.

Definition loadImage (imageData : ImageData.t) : Method tf.Tensor :=
  ret (tf.fromPixels (ImageData.width imageData) (ImageData.height imageData)
                     (ImageData.data imageData)).

Definition rgbToYCbCr (r g b : Q) : Q * Q * Q :=
  let y := 0.299 * r + 0.587 * g + 0.114 * b in
  let cb := 128 - 0.168736 * r - 0.331264 * g + 0.5 * b in
  let cr := 128 + 0.5 * r - 0.418688 * g - 0.081312 * b in
  (y, cb, cr).

(** A block size that is not positive makes the requested shape
    [[-1, blockSize, blockSize, channels]] invalid, and the library throws. *)
Definition createImageBlocks (tensor : tf.Tensor) : Method tf.Tensor :=
  self <- this ;;
  match tf.shape tensor with
  | [height; width; channels] =>
      let blockSize := blockSize (options self) in
      if (blockSize <=? 0)%Z then lift (Thrown "reshape: invalid shape") else
      let paddedHeight := (JS.ceil_div (Z.of_nat height) blockSize * blockSize)%Z in
      let paddedWidth := (JS.ceil_div (Z.of_nat width) blockSize * blockSize)%Z in
      padded <- lift (tf.pad tensor (Z.to_nat (paddedHeight - Z.of_nat height))
                                    (Z.to_nat (paddedWidth - Z.of_nat width))) ;;
      lift (tf.reshape padded (Z.to_nat blockSize) (Z.to_nat blockSize) channels)
  | _ => lift (Thrown "tensor: rank")
  end.

Definition quantizeBlock (block : tf.Tensor) : Method tf.Tensor :=
  self <- this ;;
  let step := 256 / inject_Z (quantizationLevel (options self)) in
  ret (tf.mul (tf.floor (tf.div block step)) step).

(** The coefficient tables of the conversion inside [compress]. *)
Definition coefChannel (i : nat) : Q :=
  if decide (i = 0%nat) then 0.299 else if decide (i = 1%nat) then -0.168736 else 0.5.
Definition coefOther0 (i : nat) : Q :=
  if decide (i = 0%nat) then 0.587 else if decide (i = 1%nat) then -0.331264 else -0.418688.
Definition coefOther1 (i : nat) : Q :=
  if decide (i = 0%nat) then 0.114 else if decide (i = 1%nat) then 0.5 else -0.081312.

(** [xs.filter((_, j) => j !== i)]. *)
Definition without {A : Type} (i : nat) (xs : list A) : list A :=
  omap (fun p => if decide (fst p = i) then None else Some (snd p))
       (imap (fun j x => (j, x)) xs).

Definition emptyTensor : tf.Tensor := tf.mkTensor [] [].

(** The body of the [tf.tidy] callback in [compress]. *)
Definition convert (quantized : tf.Tensor) : Outcome tf.Tensor :=
  obind (tf.split quantized 3) (fun rgb =>
  Returned
    (tf.stack
       (imap (fun i channel =>
                let others := without i rgb in
                tf.add
                  (tf.mul channel (coefChannel i))
                  (tf.add
                     (tf.mul (nth 0 others emptyTensor) (coefOther0 i))
                     (tf.mul (nth 1 others emptyTensor) (coefOther1 i))))
             rgb))).

Section EntropyCoder.

(** [String(x)] for a number [x], as used by [join] and by the template
    literal that builds a context key. *)
Variable numberToString : Q -> string.

Definition getBlockContext (block : list Q) (index : nat) : Method string :=
  let contextSize := 4%nat in
  let start := Nat.max 0 (index - contextSize) in
  let context := map (fun i => nth i block 0) (seq start (index - start)) in
  ret (String.concat "|" (map numberToString context)).

(** The value returned by [getProbability] for a count and a total. *)
Definition intervalOf (count total : Q) : Interval :=
  {| low := count / (total + 1);
     high := (count + 1) / (total + 1) |}.

Definition getProbability (value : Q) (context : string) : Method Interval :=
  self <- this ;;
  let contextKey := (context +:+ "_" +:+ numberToString value)%string in
  let count := JS.or_else (frequency <$> contexts self !! contextKey) 0 in
  let total := map_fold (fun _ ctx sum => sum + frequency ctx) 0 (contexts self) in
  ret (intervalOf count total).

(** The guard of the renormalization loop and the bit it emits. *)
Definition sameHalf (c : Coder) : bool :=
  (JS.lt (hi c) 0.5 && JS.lt (lo c) 0.5) || (JS.ge (hi c) 0.5 && JS.ge (lo c) 0.5).

Definition renormStep (c : Coder) : Coder :=
  let bit := if JS.lt (hi c) 0.5 then 0%Z else 1%Z in
  {| emitted := emitted c ++ [bit];
     lo := JS.rem (lo c * 2) 1;
     hi := JS.rem (hi c * 2) 1 |}.

(** The [while] loop of [compressBlock]; [fuel] bounds its iterations. *)
Fixpoint renormalize (fuel : nat) (c : Coder) : Outcome Coder :=
  if sameHalf c then
    match fuel with
    | O => Unfinished
    | S fuel' => renormalize fuel' (renormStep c)
    end
  else Returned c.

(** One iteration of the [for] loop of [compressBlock]. *)
Definition codeSample (fuel : nat) (block : list Q) (i : nat) (c : Coder)
  : Method Coder :=
  context <- getBlockContext block i ;;
  let value := nth i block 0 in
  let range := hi c - lo c in
  probability <- getProbability value context ;;
  let high' := lo c + range * high probability in
  let low' := lo c + range * low probability in
  lift (renormalize fuel {| emitted := emitted c; lo := low'; hi := high' |}).

Definition compressBlock (fuel : nat) (block : list Q) : Method (list Z) :=
  c <- forIndices (codeSample fuel block) (seq 0 (length block))
                  {| emitted := []; lo := 0; hi := 1 |} ;;
  ret (emitted c).

Definition compressBlocks (fuel : nat) (blocks : tf.Tensor) : Method (list (list Z)) :=
  let blockData := tf.blocks blocks in
  forEach (fun flatBlock => compressBlock fuel flatBlock) blockData.

(** The tensor handed to [compressBlocks] by [compress]. *)
Definition processedOf (imageData : ImageData.t) : Method tf.Tensor :=
  tensor <- loadImage imageData ;;
  blocks <- createImageBlocks tensor ;;
  quantized <- quantizeBlock blocks ;;
  self <- this ;;
  match colorSpace (options self) with
  | YCbCr => lift (convert quantized)
  | RGB => ret quantized
  end.

Definition compress (fuel : nat) (imageData : ImageData.t) : Method Compressed :=
  processed <- processedOf imageData ;;
  compressedData <- compressBlocks fuel processed ;;
  self <- this ;;
  ret {| compressed := compressedData;
         metadata :=
           {| Metadata.width := ImageData.width imageData;
              Metadata.height := ImageData.height imageData;
              Metadata.colorSpace := colorSpace (options self);
              Metadata.blockSize := blockSize (options self);
              Metadata.quantizationLevel := quantizationLevel (options self) |} |}.

End EntropyCoder.

(** * Derived notions

    Everything below is stated in terms of the following functions of the
    model: what a stage leaves in a buffer, what a sequence of calls leaves
    in the object, and the properties that the claims assert. *)

(** ** Methods and calls *)

(** A method that leaves the object as it found it. *)
Definition readOnly {A : Type} (m : Method A) : Prop :=
  forall self, snd (m self) = self.

(** The coder at the start of a block. *)
Definition start : Coder := {| emitted := []; lo := 0; hi := 1 |}.

(** ** Tiling *)

(** Number of blocks along an extent: [Math.ceil(extent / blockSize)]. *)
Definition blocksAlong (extent : nat) (bs : Z) : nat :=
  Z.to_nat (JS.ceil_div (Z.of_nat extent) bs).

(** Trailing padding of an extent: [padded - extent]. *)
Definition trailingPad (extent : nat) (bs : Z) : nat :=
  Z.to_nat (JS.ceil_div (Z.of_nat extent) bs * bs - Z.of_nat extent).

(** The loaded image, zero-padded as [createImageBlocks] does. *)
Definition paddedImage (imageData : ImageData.t) (bs : Z) : Outcome tf.Tensor :=
  tf.pad (tf.fromPixels (ImageData.width imageData) (ImageData.height imageData)
                        (ImageData.data imageData))
         (trailingPad (ImageData.height imageData) bs)
         (trailingPad (ImageData.width imageData) bs).

(** Number of blocks of an image: rows of blocks times columns of blocks. *)
Definition blockCount (imageData : ImageData.t) (bs : Z) : nat :=
  (blocksAlong (ImageData.height imageData) bs
   * blocksAlong (ImageData.width imageData) bs)%nat.

(** The block of C6: the [k]-th [bs] x [bs] spatial tile of a padded image
    of shape (paddedHeight, paddedWidth, channels), tiles counted from left
    to right and from top to bottom. *)
Definition spatialTile (padded : tf.Tensor) (bs k : nat) : list Q :=
  match tf.shape padded with
  | [paddedHeight; paddedWidth; channels] =>
      let perRow := (paddedWidth / bs)%nat in
      let top := (k / perRow * bs)%nat in
      let left := (k `mod` perRow * bs)%nat in
      flat_map (fun i =>
        flat_map (fun j =>
          map (fun ch =>
                 nth (((top + i) * paddedWidth + (left + j)) * channels + ch)
                     (tf.values padded) 0)
              (seq 0 channels))
          (seq 0 bs))
        (seq 0 bs)
  | _ => []
  end.

(** ** Quantization and conversion *)

(** The elementwise function of [quantizeBlock] at level [level]. *)
Definition quantize (level : Z) (x : Q) : Q :=
  let step := 256 / inject_Z level in
  inject_Z (Qfloor (x / step)) * step.

(** What the conversion computes from the three samples of one pixel. *)
Definition convertedPixel (r g b : Q) : list Q :=
  [ r * 0.299 + (g * 0.587 + b * 0.114);
    g * -0.168736 + (r * -0.331264 + b * 0.5);
    b * 0.5 + (r * -0.418688 + g * -0.081312) ].

(** Sample [i] of pixel [k] in a buffer of three-channel pixels. *)
Definition sample (buf : list Q) (k i : nat) : Q := nth (k * 3 + i) buf 0.

(** The values handed to the entropy coder, from the quantized buffer. *)
Definition colorStage (cs : ColorSpace) (quantized : list Q) : list Q :=
  match cs with
  | RGB => quantized
  | YCbCr =>
      flat_map (fun k => convertedPixel (sample quantized k 0)
                                        (sample quantized k 1)
                                        (sample quantized k 2))
               (seq 0 (length quantized / 3))
  end.

(** The pipeline in the order that C4 states: the conversion is applied to
    the loaded pixel volume, which is then tiled and quantized. *)
Definition convertImage (cs : ColorSpace) (tensor : tf.Tensor) : tf.Tensor :=
  {| tf.shape := tf.shape tensor; tf.values := colorStage cs (tf.values tensor) |}.

Definition transformFirst (imageData : ImageData.t) : Method tf.Tensor :=
  tensor <- loadImage imageData ;;
  self <- this ;;
  blocks <- createImageBlocks (convertImage (colorSpace (options self)) tensor) ;;
  quantizeBlock blocks.

Definition sameValues (a b : list Q) : Prop := Forall2 Qeq a b.

Definition transformedBeforeTiling (imageData : ImageData.t) (self : ImageDeepCABAC) : Prop :=
  exists processed expected,
    fst (processedOf imageData self) = Returned processed /\
    fst (transformFirst imageData self) = Returned expected /\
    sameValues (tf.values processed) (tf.values expected).

(** ** Rounding

    The arithmetic of the model is exact.  [IEEE] writes the elementwise
    function of [quantizeBlock] once more in a binary floating-point format
    with [prec] bits of precision and rounding to nearest even: [binary64]
    is the format of a JavaScript number, [binary32] the format in which a
    tensor stores its values. *)

Module IEEE.

Section Format.

Variables prec emax : Z.

Definition ofZ (z : Z) : spec_float :=
  match z with
  | Z0 => S754_zero false
  | _ => binary_normalize prec emax z 0 false
  end.

(** The value of a finite float is [m * 2 ^ e]; its floor is an integer. *)
Definition floorZ (f : spec_float) : Z :=
  match f with
  | S754_finite s m e =>
      let z := if s then Zneg m else Zpos m in
      if (0 <=? e)%Z then (z * 2 ^ e)%Z else (z / 2 ^ (- e))%Z
  | _ => 0%Z
  end.

(** Rounding of a float of another format to this one. *)
Definition round (f : spec_float) : spec_float :=
  match f with
  | S754_finite s m e =>
      binary_normalize prec emax (if s then Zneg m else Zpos m) e false
  | _ => f
  end.

Definition quantize (step x : spec_float) : spec_float :=
  SFmul prec emax (ofZ (floorZ (SFdiv prec emax x step))) step.

End Format.

(** [256 / quantizationLevel], a JavaScript number. *)
Definition step64 (level : Z) : spec_float :=
  SFdiv 53 1024 (ofZ 53 1024 256) (ofZ 53 1024 level).

(** The same step as the scalar of a tensor operation. *)
Definition step32 (level : Z) : spec_float := round 24 128 (step64 level).

Definition quantize64 (level : Z) : spec_float -> spec_float :=
  quantize 53 1024 (step64 level).

Definition quantize32 (level : Z) : spec_float -> spec_float :=
  quantize 24 128 (step32 level).

(** The samples of an image, and the levels whose step is a power of two. *)
Definition bytes : list Z := map Z.of_nat (seq 0 256).

Definition exactLevels : list Z := [1; 2; 4; 8; 16; 32; 64; 128; 256]%Z.

(** At level [level] the tensor arithmetic sends the byte [x] to
    [floor(x / step) * step] and a second pass returns the same float. *)
Definition settled32 (level x : Z) : bool :=
  let once := quantize32 level (ofZ 24 128 x) in
  SFeqb once (ofZ 24 128 (x / (256 / level) * (256 / level)))
  && SFeqb (quantize32 level once) once.

End IEEE.

(** ** Probability intervals *)

Definition validInterval (p : Interval) : Prop :=
  0 <= low p /\ low p < high p /\ high p <= 1.

(** ** Sequences of calls *)

Section Calls.

Variable numberToString : Q -> string.

(** A call of a public method, and the object after a sequence of calls on
    a newly constructed object. *)
Inductive Call : Type :=
| CallLoadImage (imageData : ImageData.t)
| CallRgbToYCbCr (r g b : Q)
| CallCreateImageBlocks (tensor : tf.Tensor)
| CallQuantizeBlock (block : tf.Tensor)
| CallCompress (fuel : nat) (imageData : ImageData.t).

Definition perform (call : Call) (self : ImageDeepCABAC) : ImageDeepCABAC :=
  match call with
  | CallLoadImage imageData => snd (loadImage imageData self)
  | CallRgbToYCbCr r g b => snd (ret (rgbToYCbCr r g b) self)
  | CallCreateImageBlocks tensor => snd (createImageBlocks tensor self)
  | CallQuantizeBlock block => snd (quantizeBlock block self)
  | CallCompress fuel imageData => snd (compress numberToString fuel imageData self)
  end.

Definition after (opts : PartialOptions.t) (calls : list Call) : ImageDeepCABAC :=
  foldl (fun self call => perform call self) (constructor opts) calls.

End Calls.

(** ** Example inputs *)

(** A stand-in for [String(x)] in the examples; no result depends on it. *)
Definition printNumber (x : Q) : string := pretty (Qfloor x).

Definition defaults : PartialOptions.t := PartialOptions.make None None None.

Definition configure (bs level : Z) (cs : ColorSpace) : PartialOptions.t :=
  PartialOptions.make (Some bs) (Some level) (Some cs).

Definition scenarioA : PartialOptions.t := configure 8 16 YCbCr.

(** A 16 x 16 image of mid-grey opaque pixels. *)
Definition grey16 : ImageData.t :=
  ImageData.make 16 16 (concat (replicate 256 [128; 128; 128; 255]%Z)).

(** One opaque pixel with red 100. *)
Definition red100 : ImageData.t := ImageData.make 1 1 [100; 0; 0; 255]%Z.

(** One opaque pixel of pure red. *)
Definition red255 : ImageData.t := ImageData.make 1 1 [255; 0; 0; 255]%Z.

(** An image four pixels wide and two pixels high; pixel [p] (row-major,
    from 1) is the opaque grey (p, p, p). *)
Definition strip : ImageData.t :=
  ImageData.make 4 2
    [1; 1; 1; 255;  2; 2; 2; 255;  3; 3; 3; 255;  4; 4; 4; 255;
     5; 5; 5; 255;  6; 6; 6; 255;  7; 7; 7; 255;  8; 8; 8; 255]%Z.

Definition stripTensor : tf.Tensor :=
  tf.fromPixels (ImageData.width strip) (ImageData.height strip) (ImageData.data strip).

(** An object whose table has two recorded keys. *)
Definition twoCounts : ImageDeepCABAC :=
  {| contexts := <["_0" := {| frequency := 2 |}]> (<["0_0" := {| frequency := 3 |}]> ∅);
     options := options (constructor defaults) |}.

(** ** The claims that fail, as they are written *)

(** The reading of C1 as it is written: one bit per sample. *)
Definition oneBitPerSample numberToString fuel self (block : list Q) : Prop :=
  exists bits,
    fst (compressBlock numberToString fuel block self) = Returned bits /\
    length bits = length block.

(** The reading of C3 as it is written: four non-empty bit sequences. *)
Definition scenarioA_nonempty numberToString fuel (imageData : ImageData.t) : Prop :=
  exists result,
    fst (compress numberToString fuel imageData (constructor scenarioA)) = Returned result /\
    length (compressed result) = 4%nat /\
    Forall (fun bits => bits <> []) (compressed result) /\
    Metadata.width (metadata result) = 16%nat /\
    Metadata.height (metadata result) = 16%nat /\
    Metadata.blockSize (metadata result) = 8%Z /\
    Metadata.quantizationLevel (metadata result) = 16%Z.

(** The reading of C7 as it is written: the configuration is rejected, no
    image is ever compressed with it. *)
Definition rejected (opts : PartialOptions.t) : Prop :=
  forall numberToString fuel imageData,
    exists msg,
      fst (compress numberToString fuel imageData (constructor opts)) = Thrown msg.

(** ** Bits *)

Definition isBit (b : Z) : Prop := b = 0%Z \/ b = 1%Z.

(** ** The caller: src/components/ImageCompressor.tsx

    [handleImageUpload] decodes the chosen file to pixels (not modelled),
    compresses them with a compressor of block size 8, level 16 and YCbCr,
    and reports the size of the JSON text of the result.  [JSON.stringify]
    is modelled for the one shape of value it is given here: an object of an
    array of arrays of integers and an object of integers and one string. *)

Module JSON.

Definition quote : string := String (Ascii.ascii_of_nat 34) EmptyString.

Definition str (s : string) : string := (quote +:+ s +:+ quote)%string.

Definition array (items : list string) : string :=
  ("[" +:+ String.concat "," items +:+ "]")%string.

Definition colorSpaceName (cs : ColorSpace) : string :=
  match cs with RGB => "RGB" | YCbCr => "YCbCr" end.

Definition stringify (result : Compressed) : string :=
  let m := metadata result in
  ("{" +:+ str "compressed" +:+ ":"
       +:+ array (map (fun bits => array (map pretty bits)) (compressed result))
   +:+ "," +:+ str "metadata" +:+ ":{"
       +:+ str "width" +:+ ":" +:+ pretty (Metadata.width m)
       +:+ "," +:+ str "height" +:+ ":" +:+ pretty (Metadata.height m)
       +:+ "," +:+ str "colorSpace" +:+ ":" +:+ str (colorSpaceName (Metadata.colorSpace m))
       +:+ "," +:+ str "blockSize" +:+ ":" +:+ pretty (Metadata.blockSize m)
       +:+ "," +:+ str "quantizationLevel" +:+ ":" +:+ pretty (Metadata.quantizationLevel m)
   +:+ "}}")%string.

End JSON.

Record CompressionResult : Type :=
  { originalSize : nat;
    compressedSize : nat;
    compressionRatio : Q;
    width : nat;
    height : nat }.

Section Caller.

Variable numberToString : Q -> string.

(** The body of [handleImageUpload] from the decoded pixels on; [fileSize]
    is [file.size].  An exception ends in [setError], a result in
    [setResult]. *)
Definition handleImageUpload (fuel : nat) (fileSize : nat) (imageData : ImageData.t)
  : Outcome CompressionResult :=
  let compressor := constructor (configure 8 16 YCbCr) in
  obind (fst (compress numberToString fuel imageData compressor)) (fun compressed =>
  let originalSize := fileSize in
  let compressedSize := String.length (JSON.stringify compressed) in
  Returned {| originalSize := originalSize;
              compressedSize := compressedSize;
              compressionRatio := inject_Z (Z.of_nat originalSize)
                                  / inject_Z (Z.of_nat compressedSize);
              width := ImageData.width imageData;
              height := ImageData.height imageData |}).

End Caller.

(** ** Pixels *)

(** Byte [ch] of the pixel at row [y] and column [x] of an image. *)
Definition pixelByte (imageData : ImageData.t) (y x ch : nat) : Q :=
  inject_Z (nth ((y * ImageData.width imageData + x) * 4 + ch)
                (ImageData.data imageData) 0%Z).

(** The three samples of pixel [p] of a buffer of three-channel pixels. *)
Definition pixelAt (buf : list Q) (p : nat) : list Q :=
  [sample buf p 0; sample buf p 1; sample buf p 2].

(** * Proofs *)

(** ** Laws of the method monad *)

Lemma readOnly_ret {A : Type} (a : A) : readOnly (ret a).
Proof. intros self. reflexivity. Qed.

Lemma readOnly_this : readOnly this.
Proof. intros self. reflexivity. Qed.

Lemma readOnly_lift {A : Type} (o : Outcome A) : readOnly (lift o).
Proof. intros self. reflexivity. Qed.

Lemma readOnly_bind {A B : Type} (m : Method A) (k : A -> Method B) :
  readOnly m -> (forall a, readOnly (k a)) -> readOnly (bind m k).
Proof.
  intros Hm Hk self. unfold bind.
  specialize (Hm self). destruct (m self) as [[a | e |] self']; simpl in Hm; subst.
  - apply Hk.
  - reflexivity.
  - reflexivity.
Qed.

Lemma readOnly_forEach {A B : Type} (f : A -> Method B) (xs : list A) :
  (forall x, readOnly (f x)) -> readOnly (forEach f xs).
Proof.
  intros Hf. induction xs as [| x rest IH]; simpl.
  - apply readOnly_ret.
  - apply readOnly_bind; [apply Hf |]. intros y.
    apply readOnly_bind; [exact IH |]. intros ys. apply readOnly_ret.
Qed.

Lemma readOnly_forIndices {S : Type} (body : nat -> S -> Method S) (idx : list nat) :
  (forall i st, readOnly (body i st)) -> forall st, readOnly (forIndices body idx st).
Proof.
  intros Hb. induction idx as [| i rest IH]; intros st; simpl.
  - apply readOnly_ret.
  - apply readOnly_bind; [apply Hb | exact IH].
Qed.

Lemma bind_returned {A B : Type} (m : Method A) (k : A -> Method B) self a self' :
  m self = (Returned a, self') -> bind m k self = k a self'.
Proof. intros H. unfold bind. rewrite H. reflexivity. Qed.

Lemma forEach_returned {A B : Type} (f : A -> Method B) (g : A -> B) xs self :
  (forall x, f x self = (Returned (g x), self)) ->
  forEach f xs self = (Returned (map g xs), self).
Proof.
  intros Hf. induction xs as [| x rest IH]; simpl.
  - reflexivity.
  - rewrite (bind_returned _ _ _ _ _ (Hf x)).
    rewrite (bind_returned _ _ _ _ _ IH). reflexivity.
Qed.

Lemma forIndices_fixed {S : Type} (body : nat -> S -> Method S) idx st self :
  (forall i, body i st self = (Returned st, self)) ->
  forIndices body idx st self = (Returned st, self).
Proof.
  intros Hb. induction idx as [| i rest IH]; simpl.
  - reflexivity.
  - rewrite (bind_returned _ _ _ _ _ (Hb i)). exact IH.
Qed.

(** ** The entropy coder on an empty table *)

Section EmptyTable.

Variable numberToString : Q -> string.

Lemma renormalize_done fuel c :
  sameHalf c = false -> renormalize fuel c = Returned c.
Proof. intros H. destruct fuel; simpl; rewrite H; reflexivity. Qed.

Lemma getBlockContext_returns block i self :
  exists ctx, getBlockContext numberToString block i self = (Returned ctx, self).
Proof. eexists. reflexivity. Qed.

Lemma getProbability_empty value context self :
  contexts self = ∅ ->
  getProbability numberToString value context self
  = (Returned {| low := 0; high := 1 |}, self).
Proof.
  intros He. unfold getProbability, bind, this, ret.
  rewrite He, lookup_empty, map_fold_empty. reflexivity.
Qed.

Lemma codeSample_empty fuel block i self :
  contexts self = ∅ ->
  codeSample numberToString fuel block i start self = (Returned start, self).
Proof.
  intros He. unfold codeSample.
  destruct (getBlockContext_returns block i self) as [ctx Hc].
  rewrite (bind_returned _ _ _ _ _ Hc).
  rewrite (bind_returned _ _ _ _ _ (getProbability_empty _ _ _ He)).
  unfold lift. rewrite renormalize_done; reflexivity.
Qed.

Lemma compressBlock_empty fuel block self :
  contexts self = ∅ ->
  compressBlock numberToString fuel block self = (Returned [], self).
Proof.
  intros He. unfold compressBlock.
  rewrite (bind_returned _ _ self start self); [reflexivity |].
  apply forIndices_fixed. intros i. apply codeSample_empty, He.
Qed.

Lemma compressBlocks_empty fuel blocks self :
  contexts self = ∅ ->
  compressBlocks numberToString fuel blocks self
  = (Returned (map (fun _ => []) (tf.blocks blocks)), self).
Proof.
  intros He. unfold compressBlocks.
  apply (forEach_returned _ (fun _ => [])).
  intros block. apply compressBlock_empty, He.
Qed.

End EmptyTable.

(** ** Sizes of the tensors of the pipeline *)

Lemma length_run len buf k :
  ((k + 1) * len <= length buf)%nat -> length (tf.run len buf k) = len.
Proof. intros H. unfold tf.run. rewrite length_take, length_drop. lia. Qed.

Lemma length_runs count len buf : length (tf.runs count len buf) = count.
Proof. unfold tf.runs. rewrite length_map, length_seq. reflexivity. Qed.

Lemma length_fromPixels width height rgba :
  length (tf.values (tf.fromPixels width height rgba)) = (height * width * 3)%nat.
Proof.
  simpl. rewrite (flat_map_constant_length (c := 3%nat)).
  - rewrite length_seq. lia.
  - intros i _. reflexivity.
Qed.

Lemma pad_returns t h w c padH padW :
  tf.shape t = [h; w; c] ->
  length (tf.values t) = (h * w * c)%nat ->
  exists padded,
    tf.pad t padH padW = Returned padded /\
    tf.shape padded = [(h + padH)%nat; (w + padW)%nat; c] /\
    length (tf.values padded) = ((h + padH) * (w + padW) * c)%nat.
Proof.
  intros Hs Hl. unfold tf.pad. rewrite Hs. eexists. split; [reflexivity |].
  split; [reflexivity |]. simpl.
  rewrite length_app, length_replicate.
  rewrite (flat_map_constant_length (c := (w * c + padW * c)%nat)).
  - rewrite length_runs. lia.
  - intros row Hin. unfold tf.runs in Hin. apply in_map_iff in Hin.
    destruct Hin as [k [<- Hk]]. apply in_seq in Hk.
    rewrite length_app, length_replicate, length_run; [reflexivity |]. nia.
Qed.

(** [Math.ceil(a / b) * b] is the least multiple of [b] that is at least [a]. *)
Lemma ceil_div_bounds a b :
  (0 <= a)%Z -> (0 < b)%Z ->
  (0 <= JS.ceil_div a b /\ a <= JS.ceil_div a b * b < a + b)%Z.
Proof.
  intros Ha Hb. unfold JS.ceil_div.
  pose proof (Z.div_mod (- a) b ltac:(lia)) as Hdm.
  pose proof (Z.mod_pos_bound (- a) b Hb) as Hm.
  nia.
Qed.

Lemma reshape_returns t d1 d2 d3 n :
  (0 < d1 * d2 * d3)%nat ->
  length (tf.values t) = (n * (d1 * d2 * d3))%nat ->
  tf.reshape t d1 d2 d3
  = Returned {| tf.shape := [n; d1; d2; d3]; tf.values := tf.values t |}.
Proof.
  intros Hpos Hl. unfold tf.reshape. rewrite Hl.
  destruct (decide (d1 * d2 * d3 = 0)%nat) as [H0 | _]; [lia |].
  rewrite Nat.Div0.mod_mul, Nat.div_mul by lia.
  destruct (decide (0 = 0)%nat) as [_ | H]; [reflexivity | contradiction].
Qed.

Lemma padded_extent extent bs :
  (0 < bs)%Z ->
  (extent + trailingPad extent bs = blocksAlong extent bs * Z.to_nat bs)%nat.
Proof.
  intros Hb. unfold trailingPad, blocksAlong.
  pose proof (ceil_div_bounds (Z.of_nat extent) bs ltac:(lia) Hb) as [H0 H1].
  apply Nat2Z.inj. rewrite Nat2Z.inj_add, Nat2Z.inj_mul, !Z2Nat.id by lia. lia.
Qed.

Lemma createImageBlocks_returns tensor h w c self :
  (0 < blockSize (options self))%Z ->
  (0 < c)%nat ->
  tf.shape tensor = [h; w; c] ->
  length (tf.values tensor) = (h * w * c)%nat ->
  let bs := blockSize (options self) in
  exists padded,
    tf.pad tensor (trailingPad h bs) (trailingPad w bs) = Returned padded /\
    createImageBlocks tensor self
    = (Returned {| tf.shape := [(blocksAlong h bs * blocksAlong w bs)%nat;
                                Z.to_nat bs; Z.to_nat bs; c];
                   tf.values := tf.values padded |}, self).
Proof.
  intros Hb Hc Hs Hl bs.
  destruct (pad_returns tensor h w c (trailingPad h bs) (trailingPad w bs) Hs Hl)
    as [padded [Hp [Hps Hpl]]].
  exists padded. split; [exact Hp |].
  unfold createImageBlocks, bind, this. rewrite Hs. fold bs.
  destruct (Z.leb_spec bs 0) as [Hle | _]; [unfold bs in Hle; lia |].
  fold (trailingPad h bs). fold (trailingPad w bs).
  unfold lift at 1. rewrite Hp. unfold lift.
  rewrite (reshape_returns padded _ _ _ (blocksAlong h bs * blocksAlong w bs)).
  - reflexivity.
  - assert (0 < Z.to_nat bs)%nat by (unfold bs; lia). nia.
  - rewrite Hpl, !padded_extent by exact Hb. lia.
Qed.

(** ** The channel conversion inside [compress] *)

Lemma take_one_drop {A : Type} (d : A) (l : list A) (n : nat) :
  (n < length l)%nat -> take 1 (drop n l) = [nth n l d].
Proof.
  revert n. induction l as [| x rest IH]; intros n Hn; simpl in Hn; [lia |].
  destruct n as [| n]; simpl.
  - rewrite take_0. reflexivity.
  - apply IH. lia.
Qed.

Lemma flat_map_singletons {A B : Type} (f : A -> list B) (g : A -> B) (l : list A) :
  (forall x, In x l -> f x = [g x]) -> flat_map f l = map g l.
Proof.
  induction l as [| x rest IH]; intros H; simpl; [reflexivity |].
  rewrite (H x) by (left; reflexivity).
  rewrite IH by (intros y Hy; apply H; right; exact Hy). reflexivity.
Qed.

Lemma flat_map_agree {A B : Type} (f g : A -> list B) (l : list A) :
  (forall x, In x l -> f x = g x) -> flat_map f l = flat_map g l.
Proof.
  induction l as [| x rest IH]; intros H; simpl; [reflexivity |].
  rewrite (H x) by (left; reflexivity).
  rewrite IH by (intros y Hy; apply H; right; exact Hy). reflexivity.
Qed.

Lemma channel_of_run buf k i :
  ((k + 1) * 3 <= length buf)%nat -> (i < 3)%nat ->
  take 1 (drop (i * 1) (tf.run 3 buf k)) = [sample buf k i].
Proof.
  intros Hk Hi. rewrite Nat.mul_1_r.
  rewrite (take_one_drop 0) by (rewrite length_run; lia).
  unfold tf.run, sample. rewrite nth_firstn, nth_skipn.
  destruct (Nat.ltb_spec i 3); [reflexivity | lia].
Qed.

Lemma channel_values buf n i :
  length buf = (n * 3)%nat -> (i < 3)%nat ->
  flat_map (fun px => take 1 (drop (i * 1) px)) (tf.runs n 3 buf)
  = map (fun k => sample buf k i) (seq 0 n).
Proof.
  intros Hl Hi. unfold tf.runs. rewrite flat_map_concat_map, map_map.
  rewrite <- flat_map_concat_map. apply flat_map_singletons.
  intros k Hk. apply in_seq in Hk. apply channel_of_run; lia.
Qed.

Lemma zip_with_map_map {A B C D : Type} (f : B -> C -> D) (g : A -> B) (h : A -> C)
  (l : list A) :
  zip_with f (map g l) (map h l) = map (fun x => f (g x) (h x)) l.
Proof. induction l as [| x rest IH]; simpl; [reflexivity | rewrite IH; reflexivity]. Qed.

Lemma nth_map_seq (g : nat -> Q) n j :
  (j < n)%nat -> nth j (map g (seq 0 n)) 0 = g j.
Proof.
  intros Hj. rewrite (nth_indep _ 0 (g 0%nat)) by (rewrite length_map, length_seq; lia).
  rewrite map_nth, seq_nth by lia. reflexivity.
Qed.

(** The three combinations built by the callback of [rgb.map]. *)
Lemma combine_channels (t0 t1 t2 : tf.Tensor) :
  let rgb := [t0; t1; t2] in
  imap (fun i channel =>
          let others := without i rgb in
          tf.add
            (tf.mul channel (coefChannel i))
            (tf.add
               (tf.mul (nth 0 others emptyTensor) (coefOther0 i))
               (tf.mul (nth 1 others emptyTensor) (coefOther1 i))))
       rgb
  = [ tf.add (tf.mul t0 0.299) (tf.add (tf.mul t1 0.587) (tf.mul t2 0.114));
      tf.add (tf.mul t1 (-0.168736)) (tf.add (tf.mul t0 (-0.331264)) (tf.mul t2 0.5));
      tf.add (tf.mul t2 0.5) (tf.add (tf.mul t0 (-0.418688)) (tf.mul t1 (-0.081312))) ].
Proof. reflexivity. Qed.

Lemma convert_returns quantized n :
  List.last (tf.shape quantized) 0%nat = 3%nat ->
  length (tf.values quantized) = (n * 3)%nat ->
  exists converted,
    convert quantized = Returned converted /\
    tf.shape converted = removelast (tf.shape quantized) ++ [1%nat; 3%nat] /\
    tf.values converted
    = flat_map (fun k => convertedPixel (sample (tf.values quantized) k 0)
                                         (sample (tf.values quantized) k 1)
                                         (sample (tf.values quantized) k 2))
               (seq 0 n).
Proof.
  intros Hlast Hl. unfold convert, tf.split. rewrite Hlast, Hl.
  destruct (decide (3 <> 0 /\ 3 `mod` 3 = 0)%nat) as [_ | H];
    [| exfalso; apply H; split; [discriminate | reflexivity]].
  rewrite Nat.div_mul by lia.
  change (3 `div` 3)%nat with 1%nat. cbn [obind map seq].
  rewrite combine_channels.
  eexists. split; [reflexivity |]. split.
  - cbn [tf.stack tf.shape tf.add tf.mul hd length].
    rewrite <- app_assoc. reflexivity.
  - cbn [tf.stack tf.values tf.add tf.mul hd].
    rewrite !channel_values by (trivial; lia).
    rewrite !length_zip_with, !length_map, length_seq, !Nat.min_id.
    apply flat_map_agree. intros j Hj. apply in_seq in Hj.
    cbn [map tf.values tf.add tf.mul].
    rewrite !List.map_map, !zip_with_map_map, !nth_map_seq by lia.
    reflexivity.
Qed.

(** ** The pipeline of [compress] *)

Lemma quantizeBlock_returns block self :
  quantizeBlock block self
  = (Returned {| tf.shape := tf.shape block;
                 tf.values := map (quantize (quantizationLevel (options self)))
                                  (tf.values block) |}, self).
Proof.
  unfold quantizeBlock, bind, this, ret, tf.mul, tf.floor, tf.div. simpl.
  rewrite !List.map_map. reflexivity.
Qed.

Lemma processedOf_returns imageData self :
  let bs := blockSize (options self) in
  (0 < bs)%Z ->
  exists padded processed,
    paddedImage imageData bs = Returned padded /\
    processedOf imageData self = (Returned processed, self) /\
    tf.shape processed = blockCount imageData bs :: tl (tf.shape processed) /\
    tf.size_of (tl (tf.shape processed)) = (Z.to_nat bs * Z.to_nat bs * 3)%nat /\
    tf.values processed
    = colorStage (colorSpace (options self))
                 (map (quantize (quantizationLevel (options self))) (tf.values padded)) /\
    length (tf.values processed)
    = (blockCount imageData bs * (Z.to_nat bs * Z.to_nat bs * 3))%nat.
Proof.
  intros bs Hb. destruct imageData as [w h rgba]. unfold paddedImage, blockCount. simpl.
  destruct (createImageBlocks_returns (tf.fromPixels w h rgba) h w 3 self Hb
              ltac:(lia) eq_refl (length_fromPixels w h rgba)) as [padded [Hp Hc]].
  fold bs in Hp, Hc.
  destruct (pad_returns (tf.fromPixels w h rgba) h w 3
              (trailingPad h bs) (trailingPad w bs)
              eq_refl (length_fromPixels w h rgba)) as [padded' [Hp' [_ Hpl]]].
  rewrite Hp in Hp'. injection Hp' as <-.
  rewrite !padded_extent in Hpl by exact Hb.
  set (n := (blocksAlong h bs * Z.to_nat bs * (blocksAlong w bs * Z.to_nat bs))%nat) in *.
  set (qs := map (quantize (quantizationLevel (options self))) (tf.values padded)).
  assert (Hq : length qs = (n * 3)%nat) by (unfold qs; rewrite length_map; exact Hpl).
  unfold processedOf.
  rewrite (bind_returned (loadImage (ImageData.make w h rgba)) _ self
             (tf.fromPixels w h rgba) self eq_refl).
  rewrite (bind_returned _ _ _ _ _ Hc).
  rewrite (bind_returned _ _ _ _ _ (quantizeBlock_returns _ self)).
  rewrite (bind_returned this _ self self self eq_refl).
  cbn [tf.shape tf.values]. fold qs.
  destruct (colorSpace (options self)) eqn:Hcs.
  - exists padded. eexists. split; [exact Hp |]. split; [reflexivity |].
    cbn [tf.shape tf.values hd tl tf.size_of foldr colorStage].
    repeat split; try reflexivity; try lia.
  - destruct (convert_returns
                {| tf.shape := [(blocksAlong h bs * blocksAlong w bs)%nat;
                                Z.to_nat bs; Z.to_nat bs; 3%nat];
                   tf.values := qs |} n eq_refl Hq) as [conv [Hconv [Hsh Hv]]].
    exists padded, conv. split; [exact Hp |]. unfold lift. rewrite Hconv.
    split; [reflexivity |]. rewrite Hsh, Hv. cbn [tf.shape tf.values].
    fold qs. unfold colorStage. rewrite Hq, Nat.div_mul by lia.
    cbn [removelast app hd tl tf.size_of foldr].
    repeat split; try reflexivity; try lia.
    rewrite (flat_map_constant_length (c := 3%nat)) by (intros; reflexivity).
    rewrite length_seq. unfold n. lia.
Qed.

Lemma map_const_replicate {A B : Type} (c : B) (l : list A) :
  map (fun _ => c) l = replicate (length l) c.
Proof. induction l as [| x rest IH]; simpl; [reflexivity | rewrite IH; reflexivity]. Qed.

Lemma length_blocks t n rest :
  tf.shape t = n :: rest -> length (tf.blocks t) = n.
Proof. intros Hs. unfold tf.blocks. rewrite Hs. apply length_runs. Qed.

(** On an empty table and with a positive block size [compress] returns,
    with one empty bit sequence per block. *)
Lemma compress_returns numberToString fuel imageData self :
  contexts self = ∅ ->
  (0 < blockSize (options self))%Z ->
  compress numberToString fuel imageData self
  = (Returned
       {| compressed := replicate (blockCount imageData (blockSize (options self))) [];
          metadata :=
            {| Metadata.width := ImageData.width imageData;
               Metadata.height := ImageData.height imageData;
               Metadata.colorSpace := colorSpace (options self);
               Metadata.blockSize := blockSize (options self);
               Metadata.quantizationLevel := quantizationLevel (options self) |} |},
     self).
Proof.
  intros He Hb.
  destruct (processedOf_returns imageData self Hb)
    as [padded [processed [_ [Hp [Hs _]]]]].
  unfold compress.
  rewrite (bind_returned _ _ _ _ _ Hp).
  rewrite (bind_returned _ _ _ _ _ (compressBlocks_empty numberToString fuel processed self He)).
  rewrite (bind_returned this _ self self self eq_refl).
  rewrite map_const_replicate, (length_blocks _ _ _ Hs). reflexivity.
Qed.

(** ** Every method leaves the object unchanged *)

Section ReadOnly.

Variable numberToString : Q -> string.

Lemma readOnly_createImageBlocks tensor : readOnly (createImageBlocks tensor).
Proof.
  intros self. unfold createImageBlocks, bind, this.
  destruct (tf.shape tensor) as [| h [| w [| c [| ? ?]]]]; try reflexivity.
  destruct (blockSize (options self) <=? 0)%Z; [reflexivity |].
  unfold lift. destruct (tf.pad _ _ _); reflexivity.
Qed.

Lemma readOnly_quantizeBlock block : readOnly (quantizeBlock block).
Proof. intros self. reflexivity. Qed.

Lemma readOnly_getProbability value context :
  readOnly (getProbability numberToString value context).
Proof. intros self. reflexivity. Qed.

Lemma readOnly_codeSample fuel block i c :
  readOnly (codeSample numberToString fuel block i c).
Proof.
  unfold codeSample. apply readOnly_bind; [intros self; reflexivity |]. intros ctx.
  apply readOnly_bind; [apply readOnly_getProbability |]. intros p.
  apply readOnly_lift.
Qed.

Lemma readOnly_compressBlock fuel block :
  readOnly (compressBlock numberToString fuel block).
Proof.
  unfold compressBlock. apply readOnly_bind.
  - apply readOnly_forIndices. intros i st. apply readOnly_codeSample.
  - intros c. apply readOnly_ret.
Qed.

Lemma readOnly_compressBlocks fuel blocks :
  readOnly (compressBlocks numberToString fuel blocks).
Proof.
  unfold compressBlocks. apply readOnly_forEach. intros block.
  apply readOnly_compressBlock.
Qed.

Lemma readOnly_processedOf imageData : readOnly (processedOf imageData).
Proof.
  unfold processedOf.
  apply readOnly_bind; [intros self; reflexivity |]. intros tensor.
  apply readOnly_bind; [apply readOnly_createImageBlocks |]. intros blocks.
  apply readOnly_bind; [apply readOnly_quantizeBlock |]. intros quantized.
  intros self. unfold bind, this.
  destruct (colorSpace (options self)); reflexivity.
Qed.

Lemma readOnly_compress fuel imageData :
  readOnly (compress numberToString fuel imageData).
Proof.
  unfold compress.
  apply readOnly_bind; [apply readOnly_processedOf |]. intros processed.
  apply readOnly_bind; [apply readOnly_compressBlocks |]. intros compressedData.
  apply readOnly_bind; [apply readOnly_this |]. intros self. apply readOnly_ret.
Qed.

Lemma perform_same call self : perform numberToString call self = self.
Proof.
  destruct call; simpl; try reflexivity.
  - apply readOnly_createImageBlocks.
  - apply readOnly_compress.
Qed.

Lemma after_same opts calls :
  after numberToString opts calls = constructor opts.
Proof.
  unfold after. generalize (constructor opts) as self.
  induction calls as [| call rest IH]; intros self; simpl; [reflexivity |].
  rewrite perform_same. apply IH.
Qed.

End ReadOnly.

(** ** The frequency table stays empty *)

(** C10: after any sequence of calls of public methods on a newly
    constructed object the frequency table is empty, and every call of
    getProbability returns low = 0 and high = 1. *)
Theorem contexts_always_empty numberToString opts calls :
  contexts (after numberToString opts calls) = ∅ /\
  forall value context,
    fst (getProbability numberToString value context (after numberToString opts calls))
    = Returned {| low := 0; high := 1 |}.
Proof.
  rewrite after_same. split; [reflexivity |].
  intros value context. rewrite getProbability_empty; reflexivity.
Qed.

(** ** The coder emits nothing *)

(** C1 fails: a block of one sample yields no bit. *)
Lemma one_sample_no_bit :
  ~ oneBitPerSample printNumber 8 (constructor defaults) [128].
Proof.
  intros [bits [Hbits Hlen]].
  rewrite compressBlock_empty in Hbits by reflexivity.
  injection Hbits as <-. discriminate Hlen.
Qed.

(** C1, amended: on an empty table every interval returned by
    getProbability is exactly (0, 1), coding a sample from the interval
    (0, 1) leaves the coder as it was, emitting no bit, and the bit sequence
    of a block has length 0. *)
Theorem empty_table_emits_nothing numberToString fuel self (block : list Q) :
  contexts self = ∅ ->
  (forall value context,
     fst (getProbability numberToString value context self)
     = Returned {| low := 0; high := 1 |}) /\
  (forall i c, lo c = 0 -> hi c = 1 ->
     fst (codeSample numberToString fuel block i c self) = Returned c) /\
  exists bits,
    fst (compressBlock numberToString fuel block self) = Returned bits /\
    length bits = 0%nat.
Proof.
  intros He. split; [| split].
  - intros value context. rewrite getProbability_empty by exact He. reflexivity.
  - intros i [bits l h] Hl Hh. simpl in Hl, Hh. subst l h.
    unfold codeSample.
    destruct (getBlockContext_returns numberToString block i self) as [ctx Hc].
    rewrite (bind_returned _ _ _ _ _ Hc).
    rewrite (bind_returned _ _ _ _ _ (getProbability_empty _ _ _ _ He)).
    unfold lift. rewrite renormalize_done; reflexivity.
  - exists []. rewrite compressBlock_empty by exact He. split; reflexivity.
Qed.

Lemma empty_table_emits_nothing_witness :
  exists bits,
    fst (compressBlock printNumber 8 [128; 64; 32] (constructor defaults))
    = Returned bits /\ length bits = 0%nat.
Proof.
  exact (proj2 (proj2 (empty_table_emits_nothing printNumber 8 (constructor defaults)
                         [128; 64; 32] eq_refl))).
Defined.

(** C2: on the empty table compressBlock returns the empty bit sequence for
    every block, every per-block array in a result of compress is empty, and
    compress does return a result when the block size is positive. *)
Theorem compress_yields_empty_blocks numberToString fuel self :
  contexts self = ∅ ->
  (forall block, fst (compressBlock numberToString fuel block self) = Returned []) /\
  (forall imageData result,
     fst (compress numberToString fuel imageData self) = Returned result ->
     Forall (fun bits => bits = []) (compressed result)) /\
  (forall imageData,
     (0 < blockSize (options self))%Z ->
     exists result, fst (compress numberToString fuel imageData self) = Returned result).
Proof.
  intros He. split; [| split].
  - intros block. rewrite compressBlock_empty by exact He. reflexivity.
  - intros imageData result. unfold compress, bind.
    pose proof (readOnly_processedOf imageData self) as Hro.
    destruct (processedOf imageData self) as [[processed | e |] self']; simpl in Hro;
      subst self'; try discriminate.
    rewrite compressBlocks_empty by exact He. simpl.
    intros [= <-]. simpl. apply List.Forall_forall. intros bits Hin.
    apply in_map_iff in Hin. destruct Hin as [block [<- _]]. reflexivity.
  - intros imageData Hb. eexists.
    rewrite (compress_returns numberToString fuel imageData self He Hb). reflexivity.
Qed.

Lemma compress_yields_empty_blocks_witness :
  fst (compressBlock printNumber 8 [128; 64; 32] (constructor defaults)) = Returned [].
Proof.
  exact (proj1 (compress_yields_empty_blocks printNumber 8 (constructor defaults) eq_refl)
               [128; 64; 32]).
Defined.

(** ** Scenario A: a 16 x 16 image, block size 8, level 16, YCbCr *)

Lemma blockCount_16_8 imageData :
  ImageData.width imageData = 16%nat -> ImageData.height imageData = 16%nat ->
  blockCount imageData 8 = 4%nat.
Proof. intros Hw Hh. unfold blockCount. rewrite Hw, Hh. reflexivity. Qed.

(** C3 fails: the four bit sequences of a grey 16 x 16 image are empty. *)
Lemma scenarioA_blocks_are_empty : ~ scenarioA_nonempty printNumber 8 grey16.
Proof.
  intros [result [Hr [_ [Hne _]]]].
  rewrite compress_returns in Hr by (reflexivity || (simpl; lia)).
  injection Hr as <-. cbn [compressed] in Hne.
  inversion Hne as [| bits rest Hbits _]. apply Hbits. reflexivity.
Qed.

(** C3, amended: for a 16 x 16 image with block size 8, level 16 and YCbCr,
    compress returns exactly four bit sequences, each of them empty, and
    the metadata has width 16, height 16, block size 8 and level 16. *)
Theorem scenarioA_four_empty_blocks numberToString fuel (imageData : ImageData.t) :
  ImageData.width imageData = 16%nat ->
  ImageData.height imageData = 16%nat ->
  exists result,
    fst (compress numberToString fuel imageData (constructor scenarioA)) = Returned result /\
    compressed result = [[]; []; []; []] /\
    metadata result
    = {| Metadata.width := 16; Metadata.height := 16; Metadata.colorSpace := YCbCr;
         Metadata.blockSize := 8; Metadata.quantizationLevel := 16 |}.
Proof.
  intros Hw Hh. eexists.
  rewrite compress_returns by (reflexivity || (simpl; lia)).
  split; [reflexivity |]. cbn [compressed metadata].
  change (blockSize (options (constructor scenarioA))) with 8%Z.
  rewrite (blockCount_16_8 _ Hw Hh), Hw, Hh. split; reflexivity.
Qed.

Lemma scenarioA_four_empty_blocks_witness :
  exists result,
    fst (compress printNumber 8 grey16 (constructor scenarioA)) = Returned result /\
    compressed result = [[]; []; []; []] /\
    metadata result
    = {| Metadata.width := 16; Metadata.height := 16; Metadata.colorSpace := YCbCr;
         Metadata.blockSize := 8; Metadata.quantizationLevel := 16 |}.
Proof. exact (scenarioA_four_empty_blocks printNumber 8 grey16 eq_refl eq_refl). Defined.

(** ** The order of the stages *)

(** C4 fails: with level 8 the pixel (100, 0, 0) is quantized to (96, 0, 0)
    and then converted, which gives a luma of 28.704; converting first and
    quantizing afterwards would give 0. *)
Lemma conversion_follows_quantization :
  ~ transformedBeforeTiling red100 (constructor (configure 1 8 YCbCr)).
Proof.
  intros [processed [expected [Hp [He Hsame]]]].
  vm_compute in Hp. vm_compute in He.
  injection Hp as <-. injection He as <-.
  unfold sameValues in Hsame. cbn [tf.values] in Hsame.
  inversion Hsame as [| x y xs ys Hxy _]. vm_compute in Hxy. discriminate Hxy.
Qed.

(** C4, amended: compress tiles the loaded image first (zero padding and
    reshape), quantizes the tiled values next, applies the color stage to
    the quantized values after that, and hands the result, cut into blocks,
    to the entropy coder. *)
Theorem stages_in_source_order numberToString fuel (imageData : ImageData.t) self :
  (0 < blockSize (options self))%Z ->
  exists padded processed,
    paddedImage imageData (blockSize (options self)) = Returned padded /\
    fst (processedOf imageData self) = Returned processed /\
    tf.values processed
    = colorStage (colorSpace (options self))
                 (map (quantize (quantizationLevel (options self))) (tf.values padded)) /\
    forall result,
      fst (compress numberToString fuel imageData self) = Returned result ->
      fst (compressBlocks numberToString fuel processed self)
      = Returned (compressed result).
Proof.
  intros Hb.
  destruct (processedOf_returns imageData self Hb)
    as [padded [processed [Hpad [Hp [_ [_ [Hv _]]]]]]].
  exists padded, processed. split; [exact Hpad |].
  split; [rewrite Hp; reflexivity |]. split; [exact Hv |].
  intros result. unfold compress. rewrite (bind_returned _ _ _ _ _ Hp).
  unfold bind at 1.
  destruct (compressBlocks numberToString fuel processed self)
    as [[compressedData | e |] self']; simpl; try discriminate.
  intros [= <-]. reflexivity.
Qed.

Lemma stages_in_source_order_witness :
  exists padded processed,
    paddedImage red100 1 = Returned padded /\
    fst (processedOf red100 (constructor (configure 1 8 YCbCr))) = Returned processed /\
    tf.values processed = colorStage YCbCr (map (quantize 8) (tf.values padded)).
Proof.
  destruct (stages_in_source_order printNumber 8 red100
              (constructor (configure 1 8 YCbCr)) eq_refl)
    as [padded [processed [Hpad [Hp [Hv _]]]]].
  exists padded, processed. split; [exact Hpad |]. split; [exact Hp | exact Hv].
Defined.

(** ** The conversion inside [compress] and [rgbToYCbCr] *)

(** C5 at the pixel (255, 0, 0), level 256 (step 1): compress converts it
    to (76.245, -84.47232, -106.76544), rgbToYCbCr to
    (76.245, 84.97232, 255.5). *)
Theorem conversion_of_red_pixel :
  (exists processed,
     fst (processedOf red255 (constructor (configure 1 256 YCbCr))) = Returned processed /\
     sameValues (tf.values processed) [76.245; -84.47232; -106.76544]) /\
  (let '(y, cb, cr) := rgbToYCbCr 255 0 0 in
   y == 76.245 /\ cb == 84.97232 /\ cr == 255.5).
Proof.
  split.
  - eexists. split; [vm_compute; reflexivity |].
    repeat constructor; reflexivity.
  - repeat split; reflexivity.
Qed.

(** The two conversions disagree on the second channel of every pixel with
    samples in the range of a byte. *)
Lemma conversion_never_matches (r g b : Q) :
  0 <= r <= 255 -> 0 <= g <= 255 ->
  let '(_, cb, _) := rgbToYCbCr r g b in
  ~ nth 1 (convertedPixel r g b) 0 == cb.
Proof.
  intros Hr Hg. simpl. intros H. lra.
Qed.

(** ** Tiling *)

(** C6 at a 4 x 2 image with block size 2: no padding is needed, block 0 of
    createImageBlocks holds pixels 1, 2, 3, 4 (the first row), while the
    first spatial tile holds pixels 1, 2, 5, 6. *)
Theorem first_block_is_first_row :
  exists blocks,
    fst (createImageBlocks stripTensor (constructor (configure 2 256 RGB)))
    = Returned blocks /\
    tf.shape blocks = [2; 2; 2; 3]%nat /\
    nth 0 (tf.blocks blocks) []
    = map inject_Z [1; 1; 1;  2; 2; 2;  3; 3; 3;  4; 4; 4]%Z /\
    spatialTile stripTensor 2 0
    = map inject_Z [1; 1; 1;  2; 2; 2;  5; 5; 5;  6; 6; 6]%Z.
Proof.
  eexists. split; [vm_compute; reflexivity |].
  repeat split; reflexivity.
Qed.

(** The blocks of createImageBlocks are the consecutive runs of
    [blockSize * blockSize * channels] values of the padded buffer. *)
Lemma blocks_are_runs tensor h w c self :
  (0 < blockSize (options self))%Z ->
  (0 < c)%nat ->
  tf.shape tensor = [h; w; c] ->
  length (tf.values tensor) = (h * w * c)%nat ->
  let bs := blockSize (options self) in
  exists padded blocks,
    tf.pad tensor (trailingPad h bs) (trailingPad w bs) = Returned padded /\
    fst (createImageBlocks tensor self) = Returned blocks /\
    tf.blocks blocks
    = tf.runs (blocksAlong h bs * blocksAlong w bs)
              (Z.to_nat bs * (Z.to_nat bs * (c * 1)))
              (tf.values padded).
Proof.
  intros Hb Hc Hs Hl bs.
  destruct (createImageBlocks_returns tensor h w c self Hb Hc Hs Hl)
    as [padded [Hp Hcr]].
  exists padded. eexists. split; [exact Hp |]. fold bs in Hcr. rewrite Hcr.
  split; reflexivity.
Qed.

(** ** Configurations *)

(** C7 fails: with block size 0 and level -4 the constructor installs block
    size 8, keeps the level, and compress returns a result. *)
Lemma nonpositive_configuration_accepted : ~ rejected (configure 0 (-4) YCbCr).
Proof.
  intros H. destruct (H printNumber 8%nat red100) as [msg Hmsg].
  rewrite compress_returns in Hmsg by (reflexivity || (simpl; lia)).
  discriminate Hmsg.
Qed.

Lemma or_elseZ_nonzero v d : d <> 0%Z -> JS.or_elseZ v d <> 0%Z.
Proof.
  intros Hd. unfold JS.or_elseZ. destruct v as [x |]; [| exact Hd].
  destruct (Z.eqb_spec x 0); [exact Hd | assumption].
Qed.

Lemma compress_throws numberToString fuel imageData self :
  (blockSize (options self) <= 0)%Z ->
  exists tensor msg,
    fst (loadImage imageData self) = Returned tensor /\
    fst (createImageBlocks tensor self) = Thrown msg /\
    fst (compress numberToString fuel imageData self) = Thrown msg.
Proof.
  intros Hb. eexists. eexists. split; [reflexivity |].
  assert (Hc : createImageBlocks
                 (tf.fromPixels (ImageData.width imageData) (ImageData.height imageData)
                                (ImageData.data imageData)) self
               = (Thrown "reshape: invalid shape", self)).
  { unfold createImageBlocks, bind, this. cbn [tf.shape tf.fromPixels].
    destruct (Z.leb_spec (blockSize (options self)) 0) as [_ | Hlt]; [| lia].
    reflexivity. }
  split; [rewrite Hc; reflexivity |].
  unfold compress, processedOf, loadImage.
  unfold bind at 1. unfold bind at 1. unfold ret at 1. unfold bind at 1.
  rewrite Hc. reflexivity.
Qed.

(** C7, amended: the constructor accepts every configuration; a missing or
    zero block size or level is replaced by 8 and any other value is kept,
    negative ones included.  compress then returns a result whenever the
    installed block size is positive, whatever the level; for a negative
    block size it throws, the error being the one of createImageBlocks on
    the loaded image. *)
Theorem configuration_is_never_checked numberToString fuel opts imageData :
  let self := constructor opts in
  blockSize (options self) = JS.or_elseZ (PartialOptions.blockSize opts) 8 /\
  quantizationLevel (options self)
  = JS.or_elseZ (PartialOptions.quantizationLevel opts) 8 /\
  blockSize (options self) <> 0%Z /\
  quantizationLevel (options self) <> 0%Z /\
  if (0 <? blockSize (options self))%Z
  then exists result,
         fst (compress numberToString fuel imageData self) = Returned result /\
         Metadata.blockSize (metadata result) = blockSize (options self) /\
         Metadata.quantizationLevel (metadata result) = quantizationLevel (options self)
  else exists tensor msg,
         fst (loadImage imageData self) = Returned tensor /\
         fst (createImageBlocks tensor self) = Thrown msg /\
         fst (compress numberToString fuel imageData self) = Thrown msg.
Proof.
  intros self. split; [reflexivity |]. split; [reflexivity |].
  split; [apply or_elseZ_nonzero; discriminate |].
  split; [apply or_elseZ_nonzero; discriminate |].
  destruct (Z.ltb_spec 0 (blockSize (options self))) as [Hb | Hb].
  - eexists. rewrite compress_returns by (reflexivity || exact Hb).
    repeat split; reflexivity.
  - apply compress_throws. exact Hb.
Qed.

(** ** Quantization *)

Lemma step_nonzero level : level <> 0%Z -> ~ 256 / inject_Z level == 0.
Proof.
  intros Hl H.
  assert (Hi : ~ inject_Z level == 0) by (unfold Qeq; simpl; lia).
  assert (H256 : 256 == 256 / inject_Z level * inject_Z level) by (field; exact Hi).
  rewrite H in H256. lra.
Qed.

Lemma quantize_idempotent level x :
  level <> 0%Z -> quantize level (quantize level x) == quantize level x.
Proof.
  intros Hl. unfold quantize.
  pose proof (step_nonzero level Hl) as Hs.
  set (step := 256 / inject_Z level) in *.
  set (k := Qfloor (x / step)).
  assert (Hk : inject_Z k * step / step == inject_Z k) by (field; exact Hs).
  rewrite (Qfloor_comp _ _ Hk), Qfloor_Z. reflexivity.
Qed.

(** C8 fails under rounding: the second pass can land one step lower.  As
    JavaScript numbers, at level 9 the step is 28.444444444444443, the
    sample 200 becomes 7 * step = 199.11111111111109, rounded down, and the
    quotient of that by the step is 6.999999999999999, so the second pass
    gives 6 * step.  In the format of the tensors the same happens to the
    sample 163 at level 11. *)
Lemma rounding_breaks_idempotence :
  let once64 := IEEE.quantize64 9 (IEEE.ofZ 53 1024 200) in
  let once32 := IEEE.quantize32 11 (IEEE.ofZ 24 128 163) in
  IEEE.floorZ (SFdiv 53 1024 (IEEE.ofZ 53 1024 200) (IEEE.step64 9)) = 7%Z /\
  IEEE.floorZ (SFdiv 53 1024 once64 (IEEE.step64 9)) = 6%Z /\
  SFeqb (IEEE.quantize64 9 once64) once64 = false /\
  IEEE.floorZ (SFdiv 24 128 (IEEE.ofZ 24 128 163) (IEEE.step32 11)) = 7%Z /\
  IEEE.floorZ (SFdiv 24 128 once32 (IEEE.step32 11)) = 6%Z /\
  SFeqb (IEEE.quantize32 11 once32) once32 = false.
Proof. vm_compute. repeat split; reflexivity. Qed.

Lemma quantizeBlock_twice block self :
  quantizationLevel (options self) <> 0%Z ->
  let step := 256 / inject_Z (quantizationLevel (options self)) in
  exists once twice,
    fst (quantizeBlock block self) = Returned once /\
    fst (quantizeBlock once self) = Returned twice /\
    tf.values once
    = map (fun x => inject_Z (Qfloor (x / step)) * step) (tf.values block) /\
    tf.shape twice = tf.shape once /\
    sameValues (tf.values twice) (tf.values once).
Proof.
  intros Hl step. eexists. eexists.
  rewrite !quantizeBlock_returns. cbn [fst tf.values tf.shape].
  split; [reflexivity |]. split; [reflexivity |]. split; [reflexivity |].
  split; [reflexivity |].
  unfold sameValues. induction (tf.values block) as [| x rest IH]; simpl.
  - constructor.
  - constructor; [| exact IH]. apply quantize_idempotent. exact Hl.
Qed.

Lemma exact_levels_settled :
  forallb (fun level => forallb (IEEE.settled32 level) IEEE.bytes) IEEE.exactLevels
  = true.
Proof. vm_compute. reflexivity. Qed.

Lemma byte_in_bytes x : (0 <= x <= 255)%Z -> In x IEEE.bytes.
Proof.
  intros Hx. unfold IEEE.bytes. apply in_map_iff. exists (Z.to_nat x).
  split; [lia |]. apply in_seq. lia.
Qed.

(** C8, amended: in exact arithmetic, quantizeBlock at a positive level L
    replaces every sample x by floor(x / step) * step with step = 256 / L,
    and quantizing the result again changes no sample; in the arithmetic of
    the tensors the same holds for every byte sample when L is a power of
    two from 1 to 256, where no operation rounds. *)
Theorem quantizeBlock_idempotent :
  (forall block self,
     (0 < quantizationLevel (options self))%Z ->
     let step := 256 / inject_Z (quantizationLevel (options self)) in
     exists once twice,
       fst (quantizeBlock block self) = Returned once /\
       fst (quantizeBlock once self) = Returned twice /\
       tf.values once
       = map (fun x => inject_Z (Qfloor (x / step)) * step) (tf.values block) /\
       tf.shape twice = tf.shape once /\
       sameValues (tf.values twice) (tf.values once)) /\
  (forall level x,
     In level IEEE.exactLevels -> (0 <= x <= 255)%Z ->
     let once := IEEE.quantize32 level (IEEE.ofZ 24 128 x) in
     SFeqb once (IEEE.ofZ 24 128 (x / (256 / level) * (256 / level))) = true /\
     SFeqb (IEEE.quantize32 level once) once = true).
Proof.
  split.
  - intros block self Hl. apply quantizeBlock_twice. lia.
  - intros level x Hlevel Hx.
    pose proof exact_levels_settled as Hall.
    rewrite forallb_forall in Hall. specialize (Hall level Hlevel).
    rewrite forallb_forall in Hall. specialize (Hall x (byte_in_bytes x Hx)).
    unfold IEEE.settled32 in Hall. apply andb_prop in Hall. exact Hall.
Qed.

Lemma quantizeBlock_idempotent_witness :
  (exists once twice,
     fst (quantizeBlock (tf.mkTensor [1; 1; 1; 3]%nat [100; 200; 31])
                        (constructor (configure 1 3 RGB))) = Returned once /\
     fst (quantizeBlock once (constructor (configure 1 3 RGB))) = Returned twice /\
     sameValues (tf.values twice) (tf.values once)) /\
  SFeqb (IEEE.quantize32 16 (IEEE.quantize32 16 (IEEE.ofZ 24 128 200)))
        (IEEE.quantize32 16 (IEEE.ofZ 24 128 200)) = true.
Proof.
  split.
  - destruct (proj1 quantizeBlock_idempotent
                (tf.mkTensor [1; 1; 1; 3]%nat [100; 200; 31])
                (constructor (configure 1 3 RGB)) eq_refl)
      as [once [twice [H1 [H2 [_ [_ H3]]]]]].
    exists once, twice. split; [exact H1 |]. split; [exact H2 | exact H3].
  - apply (proj2 quantizeBlock_idempotent 16%Z 200%Z); [simpl; tauto | lia].
Defined.

(** ** Probability intervals *)

(** C9 fails for a count above the total: count 1 and total 0 give the
    interval (1, 2). *)
Lemma interval_above_one : ~ validInterval (intervalOf 1 0).
Proof. unfold validInterval. simpl. intros [_ [_ H]]. vm_compute in H. apply H. reflexivity. Qed.

Lemma intervalOf_valid (count total : Q) :
  0 <= count -> count <= total -> validInterval (intervalOf count total).
Proof.
  intros H0 Hle. unfold validInterval, intervalOf. cbn [low high].
  assert (Hd : 0 < total + 1) by lra.
  assert (Hinv : 0 < / (total + 1)) by (apply Qinv_lt_0_compat; exact Hd).
  unfold Qdiv. repeat split.
  - apply Qmult_le_0_compat; lra.
  - apply Qmult_lt_compat_r; lra.
  - apply Qle_shift_div_r; lra.
Qed.

(** The total of a table of non-negative counts bounds each of them. *)
Lemma total_bounds_counts (table : gmap string ContextEntry) :
  map_Forall (fun _ ctx => 0 <= frequency ctx) table ->
  let total := map_fold (fun _ ctx sum => sum + frequency ctx) 0 table in
  0 <= total /\
  forall key ctx, table !! key = Some ctx -> frequency ctx <= total.
Proof.
  cbv zeta.
  apply (map_fold_weak_ind
           (fun total (m : gmap string ContextEntry) =>
              map_Forall (fun _ ctx => 0 <= frequency ctx) m ->
              0 <= total /\
              forall key ctx, m !! key = Some ctx -> frequency ctx <= total)).
  - intros _. split; [lra |]. intros key ctx H. rewrite lookup_empty in H. discriminate.
  - intros i x m r Hi IH Hall.
    apply map_Forall_insert in Hall; [| exact Hi]. destruct Hall as [Hx Hm].
    destruct (IH Hm) as [Hr Hb]. split; [lra |].
    intros key ctx Hk. destruct (decide (i = key)) as [-> | Hne].
    + rewrite lookup_insert_eq in Hk. injection Hk as <-. lra.
    + rewrite lookup_insert_ne in Hk by exact Hne.
      specialize (Hb key ctx Hk). lra.
Qed.

(** C9, amended: on a table of non-negative counts, getProbability returns
    the interval of a count and a total with 0 <= count <= total, and that
    interval satisfies 0 <= low < high <= 1. *)
Theorem getProbability_valid numberToString value context self :
  map_Forall (fun _ ctx => 0 <= frequency ctx) (contexts self) ->
  exists count total,
    0 <= count /\ count <= total /\
    fst (getProbability numberToString value context self)
    = Returned (intervalOf count total) /\
    validInterval (intervalOf count total).
Proof.
  intros Hall.
  destruct (total_bounds_counts (contexts self) Hall) as [Ht Hb].
  set (key := (context +:+ "_" +:+ numberToString value)%string).
  set (count := JS.or_else (frequency <$> contexts self !! key) 0).
  assert (Hc : 0 <= count /\ count <= map_fold (fun _ ctx sum => sum + frequency ctx) 0
                                               (contexts self)).
  { unfold count, JS.or_else.
    destruct (contexts self !! key) as [ctx |] eqn:Hk; simpl; [| split; lra].
    destruct (Qeq_bool (frequency ctx) 0); [split; lra |].
    split; [exact (Hall key ctx Hk) | exact (Hb key ctx Hk)]. }
  destruct Hc as [Hc0 Hct].
  exists count. eexists. split; [exact Hc0 |]. split; [exact Hct |].
  split; [reflexivity |]. apply intervalOf_valid; assumption.
Qed.

Lemma getProbability_valid_witness :
  exists count total,
    0 <= count /\ count <= total /\
    fst (getProbability printNumber 0 "" twoCounts) = Returned (intervalOf count total) /\
    validInterval (intervalOf count total).
Proof.
  apply getProbability_valid. unfold twoCounts. cbn [contexts].
  apply map_Forall_insert_2; [simpl; lra |].
  apply map_Forall_insert_2; [simpl; lra |].
  apply map_Forall_empty.
Defined.

(** * Further properties of the class *)

(** ** The quantizer *)

Lemma step_positive level : (0 < level)%Z -> 0 < 256 / inject_Z level.
Proof.
  intros Hl. apply Qlt_shift_div_l.
  - unfold Qlt. simpl. lia.
  - lra.
Qed.

Lemma quantize_below level x : (0 < level)%Z -> quantize level x <= x.
Proof.
  intros Hl. unfold quantize. pose proof (step_positive level Hl) as Hs.
  set (step := 256 / inject_Z level) in *.
  pose proof (Qfloor_le (x / step)) as Hf.
  assert (Hx : x == x / step * step) by (field; lra).
  rewrite Hx at 2. apply Qmult_le_compat_r; [exact Hf | lra].
Qed.

Lemma quantize_above level x :
  (0 < level)%Z -> x < quantize level x + 256 / inject_Z level.
Proof.
  intros Hl. unfold quantize. pose proof (step_positive level Hl) as Hs.
  set (step := 256 / inject_Z level) in *.
  pose proof (Qlt_floor (x / step)) as Hf.
  rewrite inject_Z_plus in Hf.
  assert (Hx : x == x / step * step) by (field; lra).
  assert (H : x / step * step < (inject_Z (Qfloor (x / step)) + inject_Z 1) * step)
    by (apply Qmult_lt_compat_r; [exact Hs | exact Hf]).
  rewrite <- Hx in H. change (inject_Z 1) with 1 in H. lra.
Qed.

(** X1: at a positive level, quantizeBlock keeps the shape and moves every
    sample down by less than one step: q <= x < q + step. *)
Theorem quantizeBlock_rounds_down block self :
  (0 < quantizationLevel (options self))%Z ->
  exists quantized,
    fst (quantizeBlock block self) = Returned quantized /\
    tf.shape quantized = tf.shape block /\
    Forall2 (fun x q => q <= x /\ x < q + 256 / inject_Z (quantizationLevel (options self)))
            (tf.values block) (tf.values quantized).
Proof.
  intros Hl. eexists. rewrite quantizeBlock_returns. cbn [fst tf.shape tf.values].
  split; [reflexivity |]. split; [reflexivity |].
  induction (tf.values block) as [| x rest IH]; simpl; constructor; [| exact IH].
  split; [apply quantize_below | apply quantize_above]; exact Hl.
Qed.

Lemma quantizeBlock_rounds_down_witness :
  exists quantized,
    fst (quantizeBlock (tf.mkTensor [1; 1; 1; 3]%nat [100; 200; 31])
                       (constructor (configure 1 3 RGB))) = Returned quantized /\
    Forall2 (fun x q => q <= x /\ x < q + 256 / inject_Z 3)
            [100; 200; 31] (tf.values quantized).
Proof.
  destruct (quantizeBlock_rounds_down (tf.mkTensor [1; 1; 1; 3]%nat [100; 200; 31])
              (constructor (configure 1 3 RGB)) eq_refl) as [q [H1 [_ H2]]].
  exists q. split; [exact H1 | exact H2].
Defined.




Lemma quantize_monotone level x y :
  (0 < level)%Z -> x <= y -> quantize level x <= quantize level y.
Proof.
  intros Hl Hxy. unfold quantize. pose proof (step_positive level Hl) as Hs.
  set (step := 256 / inject_Z level) in *.
  apply Qmult_le_compat_r; [| lra].
  rewrite <- Zle_Qle. apply Qfloor_resp_le.
  apply Qmult_le_compat_r; [exact Hxy |]. apply Qlt_le_weak, Qinv_lt_0_compat, Hs.
Qed.

(** X3: at a positive level quantizeBlock is monotone: if every sample of
    one block is at most the sample at the same place of another block, the
    same holds for the quantized blocks. *)
Theorem quantizeBlock_monotone block1 block2 self :
  (0 < quantizationLevel (options self))%Z ->
  Forall2 Qle (tf.values block1) (tf.values block2) ->
  exists q1 q2,
    fst (quantizeBlock block1 self) = Returned q1 /\
    fst (quantizeBlock block2 self) = Returned q2 /\
    Forall2 Qle (tf.values q1) (tf.values q2).
Proof.
  intros Hl Hle. eexists. eexists. rewrite !quantizeBlock_returns.
  cbn [fst tf.values]. split; [reflexivity |]. split; [reflexivity |].
  induction Hle as [| x y xs ys Hxy _ IH]; simpl; constructor; [| exact IH].
  apply quantize_monotone; assumption.
Qed.

Lemma quantizeBlock_monotone_witness :
  exists q1 q2,
    fst (quantizeBlock (tf.mkTensor [1; 1; 1; 3]%nat [100; 200; 31])
                       (constructor (configure 1 3 RGB))) = Returned q1 /\
    fst (quantizeBlock (tf.mkTensor [1; 1; 1; 3]%nat [101; 255; 31])
                       (constructor (configure 1 3 RGB))) = Returned q2 /\
    Forall2 Qle (tf.values q1) (tf.values q2).
Proof.
  apply (quantizeBlock_monotone (tf.mkTensor [1; 1; 1; 3]%nat [100; 200; 31])
           (tf.mkTensor [1; 1; 1; 3]%nat [101; 255; 31])
           (constructor (configure 1 3 RGB)) eq_refl).
  repeat constructor; simpl; lra.
Defined.

Lemma quantize_fixed_points level x :
  level <> 0%Z ->
  quantize level x == x <-> exists k : Z, x == inject_Z k * (256 / inject_Z level).
Proof.
  intros Hl. pose proof (step_nonzero level Hl) as Hs. unfold quantize.
  set (step := 256 / inject_Z level) in *. split.
  - intros H. exists (Qfloor (x / step)). symmetry. exact H.
  - intros [k Hk].
    assert (E : x / step == inject_Z k) by (rewrite Hk; field; exact Hs).
    rewrite (Qfloor_comp _ _ E), Qfloor_Z. symmetry. exact Hk.
Qed.

(** X4: at a non-zero level quantizeBlock returns the values it was given
    exactly when every sample is an integer multiple of the step. *)
Theorem quantizeBlock_fixed_points block self :
  quantizationLevel (options self) <> 0%Z ->
  exists quantized,
    fst (quantizeBlock block self) = Returned quantized /\
    (sameValues (tf.values quantized) (tf.values block) <->
     Forall (fun x => exists k : Z,
                        x == inject_Z k * (256 / inject_Z (quantizationLevel (options self))))
            (tf.values block)).
Proof.
  intros Hl. eexists. rewrite quantizeBlock_returns. cbn [fst tf.values].
  split; [reflexivity |]. unfold sameValues.
  induction (tf.values block) as [| x rest IH]; simpl.
  - split; constructor.
  - split.
    + intros H. inversion H as [| a b l1 l2 Hx Hrest]; subst. constructor.
      * apply (quantize_fixed_points _ _ Hl). exact Hx.
      * apply IH. exact Hrest.
    + intros H. inversion H as [| a l Hx Hrest]; subst. constructor.
      * apply (quantize_fixed_points _ _ Hl). exact Hx.
      * apply IH. exact Hrest.
Qed.

Lemma quantizeBlock_fixed_points_witness :
  exists quantized,
    fst (quantizeBlock (tf.mkTensor [1; 1; 1; 3]%nat [48; 0; 240])
                       (constructor (configure 1 16 RGB))) = Returned quantized /\
    sameValues (tf.values quantized) [48; 0; 240].
Proof.
  destruct (quantizeBlock_fixed_points (tf.mkTensor [1; 1; 1; 3]%nat [48; 0; 240])
              (constructor (configure 1 16 RGB)) ltac:(discriminate)) as [q [H1 H2]].
  exists q. split; [exact H1 |]. apply H2.
  repeat constructor; [exists 3%Z | exists 0%Z | exists 15%Z]; reflexivity.
Defined.

(** ** rgbToYCbCr *)


(** X6: for samples in the range of a byte, rgbToYCbCr stays in range: the
    luma lies in [0, 255] and both chroma values in [0.5, 255.5]. *)
Theorem rgbToYCbCr_range (r g b : Q) :
  0 <= r <= 255 -> 0 <= g <= 255 -> 0 <= b <= 255 ->
  let '(y, cb, cr) := rgbToYCbCr r g b in
  0 <= y <= 255 /\ 0.5 <= cb <= 255.5 /\ 0.5 <= cr <= 255.5.
Proof. intros Hr Hg Hb. simpl. repeat split; lra. Qed.

Lemma rgbToYCbCr_range_witness :
  let '(y, cb, cr) := rgbToYCbCr 255 0 0 in
  0 <= y <= 255 /\ 0.5 <= cb <= 255.5 /\ 0.5 <= cr <= 255.5.
Proof. apply rgbToYCbCr_range; lra. Defined.

(** X7: rgbToYCbCr loses no information: two pixels with the same
    (Y, Cb, Cr) have the same (R, G, B). *)
Theorem rgbToYCbCr_injective (r1 g1 b1 r2 g2 b2 : Q) :
  (let '(y1, cb1, cr1) := rgbToYCbCr r1 g1 b1 in
   let '(y2, cb2, cr2) := rgbToYCbCr r2 g2 b2 in
   y1 == y2 /\ cb1 == cb2 /\ cr1 == cr2) ->
  r1 == r2 /\ g1 == g2 /\ b1 == b2.
Proof. simpl. intros [Hy [Hcb Hcr]]. repeat split; lra. Qed.

Lemma rgbToYCbCr_injective_witness : 10 == 10 /\ 20 == 20 /\ 30 == 30.
Proof.
  apply (rgbToYCbCr_injective 10 20 30 10 20 30). simpl. repeat split; reflexivity.
Defined.

(** ** The conversion inside [compress], channel by channel *)

Lemma nth_flat_map_const (f : nat -> list Q) (m start n k i : nat) :
  (forall j, length (f j) = m) -> (k < n)%nat -> (i < m)%nat ->
  nth (k * m + i) (flat_map f (seq start n)) 0 = nth i (f (start + k)%nat) 0.
Proof.
  intros Hlen. revert start k. induction n as [| n IH]; intros start k Hk Hi; [lia |].
  simpl. destruct k as [| k].
  - rewrite app_nth1 by (rewrite Hlen; lia). rewrite Nat.add_0_r. reflexivity.
  - rewrite app_nth2 by (rewrite Hlen; lia). rewrite Hlen.
    replace (S k * m + i - m)%nat with (k * m + i)%nat by lia.
    rewrite IH by lia. f_equal. f_equal. lia.
Qed.

Lemma sample_converted qs n k i :
  (k < n)%nat -> (i < 3)%nat ->
  sample (flat_map (fun k => convertedPixel (sample qs k 0) (sample qs k 1) (sample qs k 2))
                   (seq 0 n)) k i
  = nth i (convertedPixel (sample qs k 0) (sample qs k 1) (sample qs k 2)) 0.
Proof.
  intros Hk Hi. unfold sample at 1.
  rewrite nth_flat_map_const by (trivial; lia). reflexivity.
Qed.



(** ** Tiling: sizes and padding *)

Lemma blocksAlong_bounds extent bs :
  (0 < bs)%Z ->
  (extent <= blocksAlong extent bs * Z.to_nat bs < extent + Z.to_nat bs)%nat.
Proof.
  intros Hb. unfold blocksAlong.
  pose proof (ceil_div_bounds (Z.of_nat extent) bs ltac:(lia) Hb) as [H0 H1].
  split.
  - apply Nat2Z.inj_le. rewrite Nat2Z.inj_mul, !Z2Nat.id by lia. lia.
  - apply Nat2Z.inj_lt. rewrite Nat2Z.inj_add, Nat2Z.inj_mul, !Z2Nat.id by lia. lia.
Qed.

(** X9: for a positive block size, createImageBlocks on a tensor of shape
    (height, width, channels) returns as many blocks as the block grid has
    cells: along each extent the least number of blocks that covers it.
    Every block holds exactly blockSize * blockSize * channels samples. *)
Theorem createImageBlocks_grid tensor h w c self :
  (0 < blockSize (options self))%Z ->
  (0 < c)%nat ->
  tf.shape tensor = [h; w; c] ->
  length (tf.values tensor) = (h * w * c)%nat ->
  let bs := Z.to_nat (blockSize (options self)) in
  exists rows cols blocks,
    fst (createImageBlocks tensor self) = Returned blocks /\
    (h <= rows * bs < h + bs)%nat /\
    (w <= cols * bs < w + bs)%nat /\
    tf.shape blocks = [(rows * cols)%nat; bs; bs; c] /\
    length (tf.blocks blocks) = (rows * cols)%nat /\
    Forall (fun block => length block = (bs * bs * c)%nat) (tf.blocks blocks).
Proof.
  intros Hb Hc Hs Hl bs.
  destruct (createImageBlocks_returns tensor h w c self Hb Hc Hs Hl) as [padded [Hp Hcr]].
  destruct (pad_returns tensor h w c (trailingPad h (blockSize (options self)))
              (trailingPad w (blockSize (options self))) Hs Hl)
    as [padded' [Hp' [_ Hpl]]].
  rewrite Hp in Hp'. injection Hp' as <-.
  rewrite !padded_extent in Hpl by exact Hb.
  exists (blocksAlong h (blockSize (options self))),
         (blocksAlong w (blockSize (options self))).
  eexists. rewrite Hcr. split; [reflexivity |].
  split; [apply blocksAlong_bounds, Hb |]. split; [apply blocksAlong_bounds, Hb |].
  split; [reflexivity |]. cbn [tf.blocks tf.shape tf.values tf.size_of foldr].
  split; [apply length_runs |].
  apply List.Forall_forall. intros block Hin. unfold tf.runs in Hin.
  apply in_map_iff in Hin. destruct Hin as [k [<- Hk]]. apply in_seq in Hk.
  rewrite length_run; [fold bs; lia |]. rewrite Hpl. fold bs. nia.
Qed.

Lemma createImageBlocks_grid_witness :
  exists rows cols blocks,
    fst (createImageBlocks stripTensor (constructor (configure 3 256 RGB)))
    = Returned blocks /\
    (2 <= rows * 3 < 2 + 3)%nat /\
    (4 <= cols * 3 < 4 + 3)%nat /\
    tf.shape blocks = [(rows * cols)%nat; 3%nat; 3%nat; 3%nat] /\
    length (tf.blocks blocks) = (rows * cols)%nat /\
    Forall (fun block => length block = (3 * 3 * 3)%nat) (tf.blocks blocks).
Proof.
  exact (createImageBlocks_grid stripTensor 2 4 3 (constructor (configure 3 256 RGB))
           eq_refl ltac:(lia) eq_refl eq_refl).
Defined.

Lemma nth_replicate_zero i n : nth i (replicate n 0) 0 = 0.
Proof.
  revert i. induction n as [| n IH]; intros [| i]; simpl; try reflexivity. apply IH.
Qed.

Lemma runs_rows rowLen pad h (buf : list Q) :
  flat_map (fun row => row ++ replicate pad 0) (tf.runs h rowLen buf)
  = flat_map (fun y => tf.run rowLen buf y ++ replicate pad 0) (seq 0 h).
Proof.
  unfold tf.runs. rewrite flat_map_concat_map, List.map_map, <- flat_map_concat_map.
  reflexivity.
Qed.

(** The padded buffer, sample by sample. *)
Lemma pad_values t h w c padH padW padded y x ch :
  tf.shape t = [h; w; c] ->
  length (tf.values t) = (h * w * c)%nat ->
  tf.pad t padH padW = Returned padded ->
  (y < h + padH)%nat -> (x < w + padW)%nat -> (ch < c)%nat ->
  nth ((y * (w + padW) + x) * c + ch) (tf.values padded) 0
  = if (y <? h)%nat && (x <? w)%nat
    then nth ((y * w + x) * c + ch) (tf.values t) 0
    else 0.
Proof.
  intros Hs Hl Hp Hy Hx Hch. unfold tf.pad in Hp. rewrite Hs in Hp.
  injection Hp as <-. cbn [tf.values]. rewrite runs_rows.
  set (rowLen := (w * c + padW * c)%nat).
  assert (Hrow : forall j, (j < h)%nat ->
            length (tf.run (w * c) (tf.values t) j ++ replicate (padW * c) 0) = rowLen).
  { intros j Hj. rewrite length_app, length_replicate, length_run; [reflexivity | nia]. }
  assert (Hidx : ((y * (w + padW) + x) * c + ch = y * rowLen + (x * c + ch))%nat)
    by (unfold rowLen; nia).
  assert (Hin : (x * c + ch < rowLen)%nat) by (unfold rowLen; nia).
  rewrite Hidx.
  assert (Hfirst : length (flat_map
                     (fun y0 => tf.run (w * c) (tf.values t) y0 ++ replicate (padW * c) 0)
                     (seq 0 h)) = (h * rowLen)%nat).
  { rewrite (flat_map_constant_length (c := rowLen)).
    - rewrite length_seq. reflexivity.
    - intros j Hj. apply in_seq in Hj. apply Hrow. lia. }
  destruct (Nat.ltb_spec y h) as [Hyh | Hyh]; cbn [andb].
  - rewrite app_nth1 by (rewrite Hfirst; nia).
    (* row y of the first part *)
    assert (Hgen : forall n start k i,
              (start + n <= h)%nat -> (k < n)%nat -> (i < rowLen)%nat ->
              nth (k * rowLen + i)
                  (flat_map (fun y0 => tf.run (w * c) (tf.values t) y0
                                       ++ replicate (padW * c) 0) (seq start n)) 0
              = nth i (tf.run (w * c) (tf.values t) (start + k)
                       ++ replicate (padW * c) 0) 0).
    { induction n as [| n IH]; intros start k i Hsn Hk Hi; [lia |].
      simpl. destruct k as [| k].
      - rewrite app_nth1 by (rewrite Hrow; lia). rewrite Nat.add_0_r. reflexivity.
      - rewrite app_nth2 by (rewrite Hrow; lia). rewrite Hrow by lia.
        replace (S k * rowLen + i - rowLen)%nat with (k * rowLen + i)%nat by lia.
        rewrite IH by lia. f_equal. f_equal. f_equal. lia. }
    rewrite (Hgen h 0%nat y (x * c + ch)%nat) by lia. cbn [Nat.add].
    destruct (Nat.ltb_spec x w) as [Hxw | Hxw].
    + rewrite app_nth1 by (rewrite length_run; nia).
      unfold tf.run. rewrite nth_firstn, nth_skipn.
      destruct (Nat.ltb_spec (x * c + ch) (w * c)); [| nia]. f_equal. nia.
    + rewrite app_nth2 by (rewrite length_run; nia). apply nth_replicate_zero.
  - rewrite app_nth2 by (rewrite Hfirst; nia). apply nth_replicate_zero.
Qed.

(** X10: createImageBlocks pads on the trailing edges only and with zeros:
    in the buffer that it returns, read as an image of the padded height and
    width, the sample at row y, column x and channel ch is the sample of the
    input at the same place when y < height and x < width, and 0 otherwise. *)
Theorem createImageBlocks_padding tensor h w c self y x ch :
  (0 < blockSize (options self))%Z ->
  (0 < c)%nat ->
  tf.shape tensor = [h; w; c] ->
  length (tf.values tensor) = (h * w * c)%nat ->
  let bs := blockSize (options self) in
  let paddedHeight := (blocksAlong h bs * Z.to_nat bs)%nat in
  let paddedWidth := (blocksAlong w bs * Z.to_nat bs)%nat in
  (y < paddedHeight)%nat -> (x < paddedWidth)%nat -> (ch < c)%nat ->
  exists blocks,
    fst (createImageBlocks tensor self) = Returned blocks /\
    length (tf.values blocks) = (paddedHeight * paddedWidth * c)%nat /\
    nth ((y * paddedWidth + x) * c + ch) (tf.values blocks) 0
    = if (y <? h)%nat && (x <? w)%nat
      then nth ((y * w + x) * c + ch) (tf.values tensor) 0
      else 0.
Proof.
  intros Hb Hc Hs Hl bs paddedHeight paddedWidth Hy Hx Hch.
  destruct (createImageBlocks_returns tensor h w c self Hb Hc Hs Hl) as [padded [Hp Hcr]].
  destruct (pad_returns tensor h w c (trailingPad h (blockSize (options self)))
              (trailingPad w (blockSize (options self))) Hs Hl)
    as [padded' [Hp' [_ Hpl]]].
  rewrite Hp in Hp'. injection Hp' as <-.
  fold bs in Hp, Hpl, Hcr.
  eexists. rewrite Hcr. split; [reflexivity |]. cbn [tf.values].
  unfold paddedHeight, paddedWidth in *.
  rewrite <- !padded_extent in * by exact Hb.
  split; [exact Hpl |].
  apply (pad_values tensor h w c _ _ padded y x ch Hs Hl Hp); assumption.
Qed.

Lemma createImageBlocks_padding_witness :
  exists blocks,
    fst (createImageBlocks stripTensor (constructor (configure 3 256 RGB)))
    = Returned blocks /\
    length (tf.values blocks) = (3 * 6 * 3)%nat /\
    nth ((1 * 6 + 4) * 3 + 0) (tf.values blocks) 0 = 0.
Proof.
  exact (createImageBlocks_padding stripTensor 2 4 3 (constructor (configure 3 256 RGB))
           1 4 0 eq_refl ltac:(lia) eq_refl eq_refl
           ltac:(vm_compute; lia) ltac:(vm_compute; lia) ltac:(lia)).
Defined.

(** ** Tiling: when the blocks are tiles *)

Lemma nth_map_seq_list {A : Type} (g : nat -> A) (d : A) n j :
  (j < n)%nat -> nth j (map g (seq 0 n)) d = g j.
Proof.
  intros Hj. rewrite (nth_indep _ d (g 0%nat)) by (rewrite length_map, length_seq; lia).
  rewrite map_nth, seq_nth by lia. reflexivity.
Qed.

Lemma take_drop_as_map (buf : list Q) len off :
  (off + len <= length buf)%nat ->
  take len (drop off buf) = map (fun t => nth (off + t) buf 0) (seq 0 len).
Proof.
  revert off. induction len as [| len IH]; intros off Hlen.
  - rewrite take_0. reflexivity.
  - rewrite seq_S, map_app. cbn [map Nat.add].
    rewrite <- IH by lia.
    replace (S len) with (len + 1)%nat at 1 by lia.
    rewrite <- (take_take_drop (drop off buf) len 1).
    f_equal. rewrite drop_drop.
    rewrite (take_one_drop 0) by lia. reflexivity.
Qed.

Lemma flat_map_map_seq {A : Type} (g : nat -> A) m n :
  flat_map (fun i => map (fun j => g (i * m + j)%nat) (seq 0 m)) (seq 0 n)
  = map g (seq 0 (n * m)).
Proof.
  induction n as [| n IH]; [reflexivity |].
  rewrite seq_S, flat_map_app, IH. cbn [flat_map Nat.add]. rewrite app_nil_r.
  replace (S n * m)%nat with (n * m + m)%nat by lia.
  rewrite seq_app, map_app. f_equal. cbn [Nat.add].
  pose proof (fmap_add_seq (n * m) 0 m) as Hshift. rewrite Nat.add_0_r in Hshift.
  rewrite <- Hshift.
  change (Nat.add (n * m) <$> seq 0 m) with (map (Nat.add (n * m)) (seq 0 m)).
  rewrite List.map_map. reflexivity.
Qed.

(** X11: when the image is at most one block wide, so that the padded width
    is the block size, the blocks of createImageBlocks are the spatial
    tiles of the padded image, from top to bottom. *)
Theorem narrow_image_blocks_are_tiles tensor h w c self :
  (0 < blockSize (options self))%Z ->
  (0 < c)%nat ->
  tf.shape tensor = [h; w; c] ->
  length (tf.values tensor) = (h * w * c)%nat ->
  (0 < w <= Z.to_nat (blockSize (options self)))%nat ->
  let bs := blockSize (options self) in
  exists padded blocks,
    tf.pad tensor (trailingPad h bs) (trailingPad w bs) = Returned padded /\
    fst (createImageBlocks tensor self) = Returned blocks /\
    length (tf.blocks blocks) = blocksAlong h bs /\
    forall k, (k < blocksAlong h bs)%nat ->
      nth k (tf.blocks blocks) [] = spatialTile padded (Z.to_nat bs) k.
Proof.
  intros Hb Hc Hs Hl Hw bs.
  destruct (createImageBlocks_returns tensor h w c self Hb Hc Hs Hl) as [padded [Hp Hcr]].
  destruct (pad_returns tensor h w c (trailingPad h bs) (trailingPad w bs) Hs Hl)
    as [padded' [Hp' [Hps Hpl]]].
  fold bs in Hp, Hcr. rewrite Hp in Hp'. injection Hp' as <-.
  rewrite !padded_extent in Hps, Hpl by exact Hb.
  assert (Hcols : blocksAlong w bs = 1%nat).
  { pose proof (blocksAlong_bounds w bs Hb) as Hbw. nia. }
  rewrite Hcols in *. set (n := Z.to_nat bs) in *.
  assert (Hn : (0 < n)%nat) by (unfold n, bs; lia).
  exists padded. eexists. split; [exact Hp |]. rewrite Hcr. split; [reflexivity |].
  cbn [tf.blocks tf.shape tf.values tf.size_of foldr].
  rewrite Nat.mul_1_r. split; [apply length_runs |].
  intros k Hk. unfold tf.runs. rewrite nth_map_seq_list by exact Hk.
  unfold tf.run. rewrite take_drop_as_map by (rewrite Hpl; nia).
  unfold spatialTile. rewrite Hps.
  rewrite Nat.mul_1_l, Nat.div_same, Nat.div_1_r, Nat.mod_1_r by lia.
  cbn [Nat.mul Nat.add].
  rewrite (flat_map_ext
             (fun i => flat_map (fun j => map (fun ch =>
                nth (((k * n + i) * n + j) * c + ch) (tf.values padded) 0) (seq 0 c))
                (seq 0 n))
             (fun i => map (fun u =>
                nth (k * (n * (n * (c * 1))) + (i * (n * c) + u)) (tf.values padded) 0)
                (seq 0 (n * c)))).
  - rewrite (flat_map_map_seq
               (fun v => nth (k * (n * (n * (c * 1))) + v) (tf.values padded) 0) (n * c) n).
    f_equal. f_equal. lia.
  - intros i.
    rewrite <- (flat_map_map_seq
                  (fun u => nth (k * (n * (n * (c * 1))) + (i * (n * c) + u))
                                (tf.values padded) 0) c n).
    apply flat_map_ext. intros j. apply map_ext. intros ch. f_equal. nia.
Qed.

Lemma narrow_image_blocks_are_tiles_witness :
  exists padded blocks,
    tf.pad (tf.fromPixels 2 4 (ImageData.data strip)) 0 0 = Returned padded /\
    fst (createImageBlocks (tf.fromPixels 2 4 (ImageData.data strip))
                           (constructor (configure 2 256 RGB))) = Returned blocks /\
    length (tf.blocks blocks) = 2%nat /\
    forall k, (k < 2)%nat -> nth k (tf.blocks blocks) [] = spatialTile padded 2 k.
Proof.
  exact (narrow_image_blocks_are_tiles (tf.fromPixels 2 4 (ImageData.data strip)) 4 2 3
           (constructor (configure 2 256 RGB))
           eq_refl ltac:(lia) eq_refl eq_refl ltac:(vm_compute; lia)).
Defined.

(** ** The context model *)

(** X12: the context of a sample is causal and short: getBlockContext at
    index i depends only on the (at most four) samples at the indices
    i - 4 .. i - 1, not on the sample at i or on any later one. *)
Theorem getBlockContext_causal numberToString (block1 block2 : list Q) i self :
  (forall j, (i - 4 <= j < i)%nat -> nth j block1 0 = nth j block2 0) ->
  fst (getBlockContext numberToString block1 i self)
  = fst (getBlockContext numberToString block2 i self).
Proof.
  intros Hsame. unfold getBlockContext, ret. cbn [fst]. do 3 f_equal.
  apply map_ext_in. intros j Hj. apply in_seq in Hj. apply Hsame. lia.
Qed.

Lemma getBlockContext_causal_witness :
  fst (getBlockContext printNumber [1; 2; 3; 4; 5; 6; 7] 5 (constructor defaults))
  = fst (getBlockContext printNumber [9; 2; 3; 4; 5; 0; 0] 5 (constructor defaults)).
Proof.
  apply getBlockContext_causal. intros j Hj.
  assert (Hc : j = 1%nat \/ j = 2%nat \/ j = 3%nat \/ j = 4%nat) by lia.
  destruct Hc as [-> | [-> | [-> | ->]]]; reflexivity.
Defined.



(** ** The coder on any table *)

Section AnyTable.

Variable numberToString : Q -> string.

Lemma renormalize_appends fuel c c' :
  renormalize fuel c = Returned c' ->
  sameHalf c' = false /\
  exists bits, emitted c' = emitted c ++ bits /\ Forall isBit bits.
Proof.
  revert c. induction fuel as [| fuel IH]; intros c; simpl;
    destruct (sameHalf c) eqn:Hsame; try discriminate.
  - intros [= <-]. split; [exact Hsame |]. exists []. rewrite app_nil_r. split; constructor.
  - intros H. destruct (IH _ H) as [Hdone [bits [Hbits Hall]]]. split; [exact Hdone |].
    cbn [renormStep emitted] in Hbits. rewrite <- app_assoc in Hbits.
    eexists. split; [exact Hbits |]. constructor; [| exact Hall].
    unfold isBit. destruct (JS.lt (hi c) 0.5); [left | right]; reflexivity.
  - intros [= <-]. split; [exact Hsame |]. exists []. rewrite app_nil_r. split; constructor.
Qed.

Lemma codeSample_appends fuel block i c c' self :
  fst (codeSample numberToString fuel block i c self) = Returned c' ->
  sameHalf c' = false /\
  exists bits, emitted c' = emitted c ++ bits /\ Forall isBit bits.
Proof.
  unfold codeSample, bind, getBlockContext, getProbability, this, ret, lift. cbn [fst].
  intros H. apply renormalize_appends in H. exact H.
Qed.

Lemma forIndices_codeSample fuel block idx c c' self :
  fst (forIndices (codeSample numberToString fuel block) idx c self) = Returned c' ->
  (idx <> [] -> sameHalf c' = false) /\
  exists bits, emitted c' = emitted c ++ bits /\ Forall isBit bits.
Proof.
  revert c. induction idx as [| i rest IH]; intros c; simpl.
  - intros [= <-]. split; [congruence |]. exists []. rewrite app_nil_r. split; constructor.
  - unfold bind at 1.
    pose proof (readOnly_codeSample numberToString fuel block i c self) as Hro.
    pose proof (fun c1 => codeSample_appends fuel block i c c1 self) as Hstep.
    destruct (codeSample numberToString fuel block i c self) as [[c1 | e |] self'];
      simpl in Hro; subst self'; try discriminate.
    intros H. destruct (Hstep c1 eq_refl) as [Hdone1 [bits1 [Hb1 Hall1]]].
    destruct (IH _ H) as [Hdone [bits [Hb Hall]]]. split.
    + intros _. destruct rest as [| i' rest'].
      * simpl in H. injection H as <-. exact Hdone1.
      * apply Hdone. discriminate.
    + exists (bits1 ++ bits). rewrite Hb, Hb1, app_assoc. split; [reflexivity |].
      apply Forall_app. split; assumption.
Qed.

End AnyTable.

(** X14: whatever the table holds, when compressBlock returns, every
    element of the returned sequence is the bit 0 or the bit 1. *)
Theorem compressBlock_emits_bits numberToString fuel (block : list Q) self bits :
  fst (compressBlock numberToString fuel block self) = Returned bits ->
  Forall (fun b => b = 0%Z \/ b = 1%Z) bits.
Proof.
  unfold compressBlock, bind.
  pose proof (fun c => forIndices_codeSample numberToString fuel block
                (seq 0 (length block)) {| emitted := []; lo := 0; hi := 1 |} c self)
    as Hloop.
  destruct (forIndices _ _ _ self) as [[c | e |] self']; try discriminate.
  intros [= <-]. destruct (Hloop c eq_refl) as [_ [out [Hout Hall]]].
  rewrite Hout. exact Hall.
Qed.

Lemma compressBlock_emits_bits_witness :
  Forall (fun b => b = 0%Z \/ b = 1%Z) [0; 1; 1]%Z.
Proof.
  apply (compressBlock_emits_bits printNumber 50 [0; 0] twoCounts). reflexivity.
Defined.

Lemma forEach_length {A B : Type} (f : A -> Method B) xs self ys :
  fst (forEach f xs self) = Returned ys -> length ys = length xs.
Proof.
  revert self ys. induction xs as [| x rest IH]; intros self ys; simpl.
  - intros [= <-]. reflexivity.
  - unfold bind at 1. destruct (f x self) as [[y | e |] self1]; try discriminate.
    unfold bind at 1. specialize (IH self1).
    destruct (forEach f rest self1) as [[ys' | e |] self2]; try discriminate.
    intros [= <-]. simpl. f_equal. apply IH. reflexivity.
Qed.

(** X15: whatever the table holds, when compressBlocks returns it returns
    one bit sequence per block: as many as the leading extent of its
    tensor. *)
Theorem compressBlocks_one_per_block numberToString fuel blocks n rest self out :
  tf.shape blocks = n :: rest ->
  fst (compressBlocks numberToString fuel blocks self) = Returned out ->
  length out = n.
Proof.
  intros Hs H. unfold compressBlocks in H. apply forEach_length in H.
  rewrite H. apply (length_blocks _ _ _ Hs).
Qed.

Lemma compressBlocks_one_per_block_witness :
  length [[0; 1; 1]; [0; 1; 1]]%Z = 2%nat.
Proof.
  apply (compressBlocks_one_per_block printNumber 50
           (tf.mkTensor [2; 1; 1; 2]%nat [0; 0; 0; 0]) 2 [1; 1; 2]%nat twoCounts);
    reflexivity.
Defined.

(** ** What [compress] returns *)

(** X16: on the empty table and with a positive block size, the result of
    compress does not depend on the pixels: two images of the same width
    and height give the same result. *)
Theorem compress_ignores_pixels numberToString fuel (image1 image2 : ImageData.t) self :
  contexts self = ∅ ->
  (0 < blockSize (options self))%Z ->
  ImageData.width image1 = ImageData.width image2 ->
  ImageData.height image1 = ImageData.height image2 ->
  exists result,
    fst (compress numberToString fuel image1 self) = Returned result /\
    fst (compress numberToString fuel image2 self) = Returned result.
Proof.
  intros He Hb Hw Hh. eexists.
  rewrite !compress_returns by assumption. unfold blockCount.
  rewrite Hw, Hh. split; reflexivity.
Qed.

Lemma compress_ignores_pixels_witness :
  exists result,
    fst (compress printNumber 8 red100 (constructor defaults)) = Returned result /\
    fst (compress printNumber 8 red255 (constructor defaults)) = Returned result.
Proof.
  exact (compress_ignores_pixels printNumber 8 red100 red255 (constructor defaults)
           eq_refl eq_refl eq_refl eq_refl).
Defined.

(** X17: on the empty table and with a positive block size, compress
    returns for every image, with one bit sequence per cell of the block
    grid (along each extent the least number of blocks that covers it), and
    with the metadata of the image and of the options. *)
Theorem compress_block_count numberToString fuel (imageData : ImageData.t) self :
  contexts self = ∅ ->
  (0 < blockSize (options self))%Z ->
  let bs := Z.to_nat (blockSize (options self)) in
  exists rows cols result,
    fst (compress numberToString fuel imageData self) = Returned result /\
    (ImageData.height imageData <= rows * bs < ImageData.height imageData + bs)%nat /\
    (ImageData.width imageData <= cols * bs < ImageData.width imageData + bs)%nat /\
    length (compressed result) = (rows * cols)%nat /\
    metadata result
    = {| Metadata.width := ImageData.width imageData;
         Metadata.height := ImageData.height imageData;
         Metadata.colorSpace := colorSpace (options self);
         Metadata.blockSize := blockSize (options self);
         Metadata.quantizationLevel := quantizationLevel (options self) |}.
Proof.
  intros He Hb bs.
  exists (blocksAlong (ImageData.height imageData) (blockSize (options self))),
         (blocksAlong (ImageData.width imageData) (blockSize (options self))).
  eexists. rewrite compress_returns by assumption. split; [reflexivity |].
  split; [apply blocksAlong_bounds, Hb |]. split; [apply blocksAlong_bounds, Hb |].
  cbn [compressed metadata]. rewrite length_replicate. split; reflexivity.
Qed.

Lemma compress_block_count_witness :
  exists rows cols result,
    fst (compress printNumber 8 strip (constructor (configure 3 16 YCbCr)))
    = Returned result /\
    (2 <= rows * 3 < 2 + 3)%nat /\
    (4 <= cols * 3 < 4 + 3)%nat /\
    length (compressed result) = (rows * cols)%nat.
Proof.
  destruct (compress_block_count printNumber 8 strip (constructor (configure 3 16 YCbCr))
              eq_refl eq_refl) as [rows [cols [result [H1 [H2 [H3 [H4 _]]]]]]].
  exists rows, cols, result. repeat split; assumption || apply H2 || apply H3.
Defined.

(** ** A loop that does not end *)

Lemma sameHalf_at_zero c : lo c == 0 -> hi c == 0 -> sameHalf c = true.
Proof.
  intros Hl Hh. unfold sameHalf, JS.lt.
  assert (H1 : Qle_bool 0.5 (hi c) = false).
  { destruct (Qle_bool 0.5 (hi c)) eqn:E; [| reflexivity].
    apply Qle_bool_iff in E. rewrite Hh in E. exfalso. revert E. apply Qlt_not_le. reflexivity. }
  assert (H2 : Qle_bool 0.5 (lo c) = false).
  { destruct (Qle_bool 0.5 (lo c)) eqn:E; [| reflexivity].
    apply Qle_bool_iff in E. rewrite Hl in E. exfalso. revert E. apply Qlt_not_le. reflexivity. }
  rewrite H1, H2. reflexivity.
Qed.

Lemma rem_of_integer x (k : Z) : (0 <= k)%Z -> x == inject_Z k -> JS.rem (x * 2) 1 == 0.
Proof.
  intros Hk Hx. unfold JS.rem, JS.trunc.
  assert (E : x * 2 / 1 == inject_Z (k * 2)).
  { rewrite inject_Z_mult, Hx. change (inject_Z 2) with 2. field. }
  assert (Hpos : Qle_bool 0 (x * 2 / 1) = true).
  { apply Qle_bool_iff. rewrite E. change 0 with (inject_Z 0). rewrite <- Zle_Qle. lia. }
  rewrite Hpos, (Qfloor_comp _ _ E), Qfloor_Z, inject_Z_mult, Hx.
  change (inject_Z 2) with 2. ring.
Qed.

Lemma renormalize_stuck fuel c :
  lo c == 0 -> hi c == 0 -> renormalize fuel c = Unfinished.
Proof.
  revert c. induction fuel as [| fuel IH]; intros c Hl Hh; simpl;
    rewrite (sameHalf_at_zero c Hl Hh); [reflexivity |].
  apply IH; cbn [renormStep lo hi].
  - apply (rem_of_integer _ 0); [lia | exact Hl].
  - apply (rem_of_integer _ 0); [lia | exact Hh].
Qed.

Lemma rem_of_half x : x == 1 # 2 -> JS.rem (x * 2) 1 == 0.
Proof.
  intros Hx. unfold JS.rem, JS.trunc.
  assert (E : x * 2 / 1 == inject_Z 1) by (rewrite Hx; reflexivity).
  assert (Hpos : Qle_bool 0 (x * 2 / 1) = true).
  { apply Qle_bool_iff. rewrite E. discriminate. }
  rewrite Hpos, (Qfloor_comp _ _ E), Qfloor_Z, Hx. reflexivity.
Qed.

Lemma renormalize_upper_half fuel c :
  lo c == 1 # 2 -> hi c == 1 -> renormalize fuel c = Unfinished.
Proof.
  intros Hl Hh.
  assert (Hsame : sameHalf c = true).
  { unfold sameHalf, JS.ge.
    assert (H1 : Qle_bool 0.5 (hi c) = true)
      by (apply Qle_bool_iff; rewrite Hh; discriminate).
    assert (H2 : Qle_bool 0.5 (lo c) = true)
      by (apply Qle_bool_iff; rewrite Hl; discriminate).
    rewrite H1, H2. apply orb_true_r. }
  destruct fuel as [| fuel]; simpl; rewrite Hsame; [reflexivity |].
  apply renormalize_stuck; cbn [renormStep lo hi].
  - apply rem_of_half, Hl.
  - apply (rem_of_integer _ 1); [lia | exact Hh].
Qed.

(** X18: if the table held one key with frequency 1 and the first sample of
    a block had that key, the interval of that sample would be [1/2, 1):
    the renormalization loop then doubles it to [0, 0] and never leaves it,
    so compressBlock does not return, however much fuel it is given. *)
Theorem compressBlock_hangs numberToString fuel (value : Q) (rest : list Q) self :
  contexts self = {[ ("_" +:+ numberToString value)%string := {| frequency := 1 |} ]} ->
  fst (compressBlock numberToString fuel (value :: rest) self) = Unfinished.
Proof.
  intros Htable. unfold compressBlock. cbn [length seq forIndices].
  unfold bind at 1. unfold bind at 1.
  assert (Hc : codeSample numberToString fuel (value :: rest) 0
                 {| emitted := []; lo := 0; hi := 1 |} self = (Unfinished, self)).
  { assert (Hp : getProbability numberToString value "" self
                  = (Returned (intervalOf 1 (0 + 1)), self)).
    { unfold getProbability, bind, this, ret.
      change ("" +:+ "_" +:+ numberToString value)%string
        with ("_" +:+ numberToString value)%string.
      rewrite Htable, lookup_singleton_eq, map_fold_singleton. reflexivity. }
    unfold codeSample.
    rewrite (bind_returned (getBlockContext numberToString (value :: rest) 0) _
               self "" self eq_refl).
    cbn [nth]. rewrite (bind_returned _ _ _ _ _ Hp).
    unfold lift. rewrite renormalize_upper_half; reflexivity. }
  rewrite Hc. reflexivity.
Qed.

Lemma compressBlock_hangs_witness :
  fst (compressBlock printNumber 1000 [7; 7]
         {| contexts := {[ "_7" := {| frequency := 1 |} ]};
            options := options (constructor defaults) |}) = Unfinished.
Proof.
  exact (compressBlock_hangs printNumber 1000 7 [7]
           {| contexts := {[ "_7" := {| frequency := 1 |} ]};
              options := options (constructor defaults) |} eq_refl).
Defined.

(** ** The size that the caller reports *)

Lemma length_append (a b : string) :
  String.length (a +:+ b) = (String.length a + String.length b)%nat.
Proof. induction a as [| ch a IH]; simpl; [reflexivity | rewrite IH; reflexivity]. Qed.

Lemma length_empty_arrays n :
  String.length (String.concat "," (replicate (S n) "[]"%string)) = (3 * n + 2)%nat.
Proof.
  induction n as [| n IH]; [reflexivity |].
  change (replicate (S (S n)) "[]"%string) with ("[]"%string :: replicate (S n) "[]"%string).
  cbn [String.concat]. change (replicate (S n) "[]"%string)
    with ("[]"%string :: replicate n "[]"%string) at 1.
  cbv iota. rewrite !length_append, IH. simpl. lia.
Qed.

Lemma stringify_empty_blocks n (m : Metadata.t) :
  Metadata.colorSpace m = YCbCr ->
  Metadata.blockSize m = 8%Z ->
  Metadata.quantizationLevel m = 16%Z ->
  String.length (JSON.stringify {| compressed := replicate (S n) []; metadata := m |})
  = (3 * S n + 106 + String.length (pretty (Metadata.width m))
     + String.length (pretty (Metadata.height m)))%nat.
Proof.
  intros Hcs Hbs Hql. unfold JSON.stringify, JSON.array. cbn [compressed metadata].
  rewrite Hcs, Hbs, Hql.
  replace (map (fun bits : list Z => ("[" +:+ String.concat "," (map pretty bits) +:+ "]")%string)
               (replicate (S n) []))
    with (replicate (S n) "[]"%string).
  - rewrite !length_append, length_empty_arrays. simpl. lia.
  - generalize (S n) as k. intros k. induction k as [| k IH]; simpl; [reflexivity |].
    rewrite <- IH. reflexivity.
Qed.

(** X19: for every image of positive width and height, the size that
    handleImageUpload reports is fixed by the dimensions alone: three
    characters per block of the 8 x 8 grid, 106 characters of punctuation
    and keys, and the digits of the width and of the height.  The reported
    ratio is the file size divided by that number. *)
Theorem handleImageUpload_size numberToString fuel fileSize (imageData : ImageData.t) :
  (0 < ImageData.width imageData)%nat ->
  (0 < ImageData.height imageData)%nat ->
  exists rows cols stats,
    handleImageUpload numberToString fuel fileSize imageData = Returned stats /\
    (ImageData.height imageData <= rows * 8 < ImageData.height imageData + 8)%nat /\
    (ImageData.width imageData <= cols * 8 < ImageData.width imageData + 8)%nat /\
    compressedSize stats
    = (3 * (rows * cols) + 106
       + String.length (pretty (ImageData.width imageData))
       + String.length (pretty (ImageData.height imageData)))%nat /\
    originalSize stats = fileSize /\
    compressionRatio stats
    == inject_Z (Z.of_nat fileSize) / inject_Z (Z.of_nat (compressedSize stats)).
Proof.
  intros Hw Hh.
  pose proof (blocksAlong_bounds (ImageData.height imageData) 8 ltac:(lia)) as Hrows.
  pose proof (blocksAlong_bounds (ImageData.width imageData) 8 ltac:(lia)) as Hcols.
  change (Z.to_nat 8) with 8%nat in Hrows, Hcols.
  exists (blocksAlong (ImageData.height imageData) 8),
         (blocksAlong (ImageData.width imageData) 8).
  eexists. unfold handleImageUpload.
  rewrite compress_returns by (reflexivity || (simpl; lia)).
  cbn [fst obind]. split; [reflexivity |]. split; [exact Hrows |]. split; [exact Hcols |].
  cbn [compressedSize originalSize compressionRatio].
  change (blockSize (options (constructor (configure 8 16 YCbCr)))) with 8%Z.
  unfold blockCount.
  set (n := (blocksAlong (ImageData.height imageData) 8
             * blocksAlong (ImageData.width imageData) 8)%nat).
  assert (Hn : exists k, n = S k).
  { destruct n as [| k] eqn:E; [| exists k; reflexivity]. unfold n in E. nia. }
  destruct Hn as [k Hk]. rewrite Hk.
  rewrite stringify_empty_blocks by reflexivity. cbn [Metadata.width Metadata.height].
  split; [reflexivity |]. split; reflexivity.
Qed.

Lemma handleImageUpload_size_witness :
  exists rows cols stats,
    handleImageUpload printNumber 8 5000 grey16 = Returned stats /\
    (16 <= rows * 8 < 16 + 8)%nat /\
    (16 <= cols * 8 < 16 + 8)%nat /\
    compressedSize stats = (3 * (rows * cols) + 106 + 2 + 2)%nat.
Proof.
  destruct (handleImageUpload_size printNumber 8 5000 grey16 ltac:(simpl; lia)
              ltac:(simpl; lia)) as [rows [cols [stats [H1 [H2 [H3 [H4 _]]]]]]].
  exists rows, cols, stats. split; [exact H1 |]. split; [exact H2 |].
  split; [exact H3 | exact H4].
Defined.

(** ** From the pixels of the image to the input of the coder *)

Lemma fromPixels_nth w h rgba i ch :
  (i < w * h)%nat -> (ch < 3)%nat ->
  nth (i * 3 + ch) (tf.values (tf.fromPixels w h rgba)) 0
  = inject_Z (nth (i * 4 + ch) rgba 0%Z).
Proof.
  intros Hi Hch. cbn [tf.fromPixels tf.values].
  rewrite nth_flat_map_const by (trivial; intros; reflexivity).
  cbn [Nat.add]. destruct ch as [| [| [| ch]]]; [reflexivity .. | lia].
Qed.

(** X20: loadImage returns a tensor of shape (height, width, 3) that holds
    the red, green and blue bytes of every pixel in row-major order; the
    fourth byte of a pixel, its alpha, is not read. *)
Theorem loadImage_drops_alpha (imageData : ImageData.t) self :
  exists tensor,
    fst (loadImage imageData self) = Returned tensor /\
    tf.shape tensor = [ImageData.height imageData; ImageData.width imageData; 3%nat] /\
    length (tf.values tensor)
    = (ImageData.height imageData * ImageData.width imageData * 3)%nat /\
    forall y x ch,
      (y < ImageData.height imageData)%nat -> (x < ImageData.width imageData)%nat ->
      (ch < 3)%nat ->
      nth ((y * ImageData.width imageData + x) * 3 + ch) (tf.values tensor) 0
      = pixelByte imageData y x ch.
Proof.
  eexists. split; [reflexivity |]. split; [reflexivity |].
  split; [apply length_fromPixels |].
  intros y x ch Hy Hx Hch. apply fromPixels_nth; [nia | exact Hch].
Qed.

Lemma quantize_zero level : quantize level 0 == 0.
Proof.
  unfold quantize.
  assert (E : 0 / (256 / inject_Z level) == inject_Z 0) by (unfold Qdiv; ring).
  rewrite (Qfloor_comp _ _ E), Qfloor_Z. ring.
Qed.

Lemma nth_map_in_range (f : Q -> Q) (l : list Q) i :
  (i < length l)%nat -> nth i (map f l) 0 = f (nth i l 0).
Proof.
  intros Hi. rewrite (nth_indep _ 0 (f 0)) by (rewrite length_map; exact Hi).
  apply map_nth.
Qed.

(** The pixel [p] that compress hands to the coder, from the padded image. *)
Lemma processed_pixel imageData self p :
  let bs := blockSize (options self) in
  (0 < bs)%Z ->
  exists padded processed,
    paddedImage imageData bs = Returned padded /\
    fst (processedOf imageData self) = Returned processed /\
    ((p < blockCount imageData bs * (Z.to_nat bs * Z.to_nat bs))%nat ->
     let q i := quantize (quantizationLevel (options self)) (sample (tf.values padded) p i) in
     pixelAt (tf.values processed) p
     = match colorSpace (options self) with
       | RGB => [q 0%nat; q 1%nat; q 2%nat]
       | YCbCr => convertedPixel (q 0%nat) (q 1%nat) (q 2%nat)
       end).
Proof.
  intros bs Hb.
  destruct (processedOf_returns imageData self Hb)
    as [padded [processed [Hpad [Hp [_ [_ [Hv Hlen]]]]]]].
  exists padded, processed. split; [exact Hpad |]. split; [rewrite Hp; reflexivity |].
  intros Hp3 q. fold bs in Hv, Hlen.
  set (qs := map (quantize (quantizationLevel (options self))) (tf.values padded)) in *.
  assert (Hq : length qs = (blockCount imageData bs * (Z.to_nat bs * Z.to_nat bs) * 3)%nat).
  { unfold qs. rewrite length_map. unfold paddedImage in Hpad.
    destruct (pad_returns
                (tf.fromPixels (ImageData.width imageData) (ImageData.height imageData)
                               (ImageData.data imageData))
                (ImageData.height imageData) (ImageData.width imageData) 3
                (trailingPad (ImageData.height imageData) bs)
                (trailingPad (ImageData.width imageData) bs)
                eq_refl (length_fromPixels _ _ (ImageData.data imageData)))
      as [padded' [Hp' [_ Hpl]]].
    unfold bs in Hp'. rewrite Hpad in Hp'. injection Hp' as <-.
    rewrite Hpl, !padded_extent by exact Hb. unfold blockCount. lia. }
  assert (Hsample : forall i, (i < 3)%nat -> sample qs p i = q i).
  { intros i Hi. unfold sample, qs, q. rewrite nth_map_in_range; [reflexivity |].
    unfold qs in Hq. rewrite length_map in Hq. rewrite Hq. lia. }
  unfold pixelAt. rewrite Hv.
  destruct (colorSpace (options self)); cbn [colorStage].
  - rewrite !Hsample by lia. reflexivity.
  - rewrite Hq, Nat.div_mul by lia.
    rewrite !sample_converted by lia. rewrite !Hsample by lia. reflexivity.
Qed.

(** X21: end to end, for a pixel inside the image: with a positive block
    size, compress hands to the coder, at the place of the pixel in the
    padded buffer, the quantized red, green and blue bytes of that pixel
    when the color space is RGB, and the inline conversion of those
    quantized bytes when it is YCbCr. *)
Theorem compress_input_inside (imageData : ImageData.t) self y x :
  let bs := blockSize (options self) in
  let paddedWidth := (blocksAlong (ImageData.width imageData) bs * Z.to_nat bs)%nat in
  (0 < bs)%Z ->
  (y < ImageData.height imageData)%nat ->
  (x < ImageData.width imageData)%nat ->
  exists processed,
    fst (processedOf imageData self) = Returned processed /\
    let q ch := quantize (quantizationLevel (options self)) (pixelByte imageData y x ch) in
    pixelAt (tf.values processed) (y * paddedWidth + x)
    = match colorSpace (options self) with
      | RGB => [q 0%nat; q 1%nat; q 2%nat]
      | YCbCr => convertedPixel (q 0%nat) (q 1%nat) (q 2%nat)
      end.
Proof.
  intros bs paddedWidth Hb Hy Hx.
  destruct (processed_pixel imageData self (y * paddedWidth + x) Hb)
    as [padded [processed [Hpad [Hp Hpx]]]].
  exists processed. split; [exact Hp |]. fold bs in Hpad, Hpx.
  pose proof (blocksAlong_bounds (ImageData.height imageData) bs Hb) as Hrows.
  pose proof (blocksAlong_bounds (ImageData.width imageData) bs Hb) as Hcols.
  fold paddedWidth in Hcols.
  assert (Hin : (y * paddedWidth + x
                 < blockCount imageData bs * (Z.to_nat bs * Z.to_nat bs))%nat).
  { unfold blockCount. fold paddedWidth.
    set (ph := (blocksAlong (ImageData.height imageData) bs * Z.to_nat bs)%nat) in *.
    assert (y * paddedWidth + x < ph * paddedWidth)%nat by nia.
    unfold ph, paddedWidth in *. nia. }
  rewrite (Hpx Hin). clear Hpx.
  assert (Hbyte : forall ch, (ch < 3)%nat ->
            sample (tf.values padded) (y * paddedWidth + x) ch = pixelByte imageData y x ch).
  { intros ch Hch. unfold sample, paddedImage in *.
    unfold paddedWidth. rewrite <- padded_extent by exact Hb.
    rewrite (pad_values
               (tf.fromPixels (ImageData.width imageData) (ImageData.height imageData)
                              (ImageData.data imageData))
               (ImageData.height imageData) (ImageData.width imageData) 3
               _ _ padded y x ch eq_refl
               (length_fromPixels _ _ (ImageData.data imageData)) Hpad) by lia.
    destruct (Nat.ltb_spec y (ImageData.height imageData)); [| lia].
    destruct (Nat.ltb_spec x (ImageData.width imageData)); [| lia].
    cbn [andb]. unfold pixelByte. apply fromPixels_nth; [nia | exact Hch]. }
  cbv zeta. rewrite !Hbyte by lia. reflexivity.
Qed.

Lemma compress_input_inside_witness :
  exists processed,
    fst (processedOf strip (constructor (configure 3 16 RGB))) = Returned processed /\
    pixelAt (tf.values processed) (1 * 6 + 2)
    = [quantize 16 (pixelByte strip 1 2 0); quantize 16 (pixelByte strip 1 2 1);
       quantize 16 (pixelByte strip 1 2 2)].
Proof.
  exact (compress_input_inside strip (constructor (configure 3 16 RGB)) 1 2
           eq_refl ltac:(simpl; lia) ltac:(simpl; lia)).
Defined.

(** X22: end to end, for a pixel of the padding: with a positive block
    size, the three samples that compress hands to the coder at a place
    beyond the height or the width of the image are 0, in both color
    spaces (the inline conversion adds no offset). *)
Theorem compress_input_padding (imageData : ImageData.t) self y x ch :
  let bs := blockSize (options self) in
  let paddedHeight := (blocksAlong (ImageData.height imageData) bs * Z.to_nat bs)%nat in
  let paddedWidth := (blocksAlong (ImageData.width imageData) bs * Z.to_nat bs)%nat in
  (0 < bs)%Z ->
  (y < paddedHeight)%nat -> (x < paddedWidth)%nat -> (ch < 3)%nat ->
  (ImageData.height imageData <= y \/ ImageData.width imageData <= x)%nat ->
  exists processed,
    fst (processedOf imageData self) = Returned processed /\
    sample (tf.values processed) (y * paddedWidth + x) ch == 0.
Proof.
  intros bs paddedHeight paddedWidth Hb Hy Hx Hch Hout.
  destruct (processed_pixel imageData self (y * paddedWidth + x) Hb)
    as [padded [processed [Hpad [Hp Hpx]]]].
  exists processed. split; [exact Hp |]. fold bs in Hpad, Hpx.
  assert (Hin : (y * paddedWidth + x
                 < blockCount imageData bs * (Z.to_nat bs * Z.to_nat bs))%nat).
  { unfold blockCount. fold paddedWidth.
    assert (y * paddedWidth + x < paddedHeight * paddedWidth)%nat by nia.
    unfold paddedHeight, paddedWidth in *. nia. }
  specialize (Hpx Hin). cbv zeta in Hpx.
  assert (Hzero : forall i, (i < 3)%nat ->
            sample (tf.values padded) (y * paddedWidth + x) i = 0).
  { intros i Hi. unfold sample, paddedImage in *.
    unfold paddedHeight, paddedWidth in *.
    rewrite <- padded_extent in * by exact Hb.
    rewrite (pad_values
               (tf.fromPixels (ImageData.width imageData) (ImageData.height imageData)
                              (ImageData.data imageData))
               (ImageData.height imageData) (ImageData.width imageData) 3
               _ _ padded y x i eq_refl
               (length_fromPixels _ _ (ImageData.data imageData)) Hpad) by lia.
    destruct (Nat.ltb_spec y (ImageData.height imageData));
      destruct (Nat.ltb_spec x (ImageData.width imageData)); cbn [andb];
      try reflexivity; lia. }
  cbv beta in Hpx. rewrite !Hzero in Hpx by lia.
  pose proof (quantize_zero (quantizationLevel (options self))) as Hq0.
  assert (Hs : sample (tf.values processed) (y * paddedWidth + x) ch
               = nth ch (pixelAt (tf.values processed) (y * paddedWidth + x)) 0).
  { destruct ch as [| [| [| ch]]]; [reflexivity .. | lia]. }
  rewrite Hs, Hpx.
  destruct (colorSpace (options self)); destruct ch as [| [| [| ch]]];
    cbn [nth convertedPixel]; try lia; try exact Hq0; rewrite Hq0; reflexivity.
Qed.

Lemma compress_input_padding_witness :
  exists processed,
    fst (processedOf strip (constructor (configure 3 16 YCbCr))) = Returned processed /\
    sample (tf.values processed) (2 * 6 + 1) 1 == 0.
Proof.
  exact (compress_input_padding strip (constructor (configure 3 16 YCbCr)) 2 1 1
           eq_refl ltac:(vm_compute; lia) ltac:(vm_compute; lia) ltac:(lia)
           ltac:(left; simpl; lia)).
Defined.
